(** * Image Fusion: the upload / fusion / history state machine of [src/index.tsx]

    A shallow embedding of the [App] component: its React state becomes a
    record, every event handler a function on that record, and the one
    asynchronous handler ([handleFuseClick]) is split at its [await]s into
    the synchronous prologue and the settlement, with the answers of the
    outside world (file reader, remote model, clock) passed in explicitly. *)

From Stdlib Require Import Ascii.
From stdpp Require Import base option list strings pretty.

Open Scope string_scope.

(** ** JavaScript strings

    Strings are sequences of code units; the development uses Rocq's
    [string], whose units range over 0..255. *)

(** White space as [String.prototype.trim] sees it, restricted to the code
    units representable here: TAB, LF, VT, FF, CR, SPACE and NBSP. *)
Definition is_js_whitespace (c : Ascii.ascii) : bool :=
  let n := Ascii.nat_of_ascii c in
  (n =? 9)%nat || (n =? 10)%nat || (n =? 11)%nat || (n =? 12)%nat
  || (n =? 13)%nat || (n =? 32)%nat || (n =? 160)%nat.

Fixpoint trimStart (s : string) : string :=
  match s with
  | EmptyString => EmptyString
  | String c r => if is_js_whitespace c then trimStart r else s
  end.

Fixpoint trimEnd (s : string) : string :=
  match s with
  | EmptyString => EmptyString
  | String c r =>
      match trimEnd r with
      | EmptyString => if is_js_whitespace c then EmptyString else String c EmptyString
      | r' => String c r'
      end
  end.

(** [s.trim()] *)
Definition trim (s : string) : string := trimEnd (trimStart s).

(** Truthiness of a string value: the empty string is falsy. *)
Definition truthy (s : string) : bool :=
  match s with EmptyString => false | _ => true end.

(** Truthiness of a possibly missing string ([undefined] is falsy). *)
Definition truthy_opt (o : option string) : bool :=
  match o with Some s => truthy s | None => false end.

(** [o || fallback] for a possibly missing string [o]. *)
Definition or_else (o : option string) (fallback : string) : string :=
  match o with
  | Some s => if truthy s then s else fallback
  | None => fallback
  end.

(** [s.startsWith(p)] *)
Definition startsWith (s p : string) : bool := String.prefix p s.

(** [s.split(sep)] for a one-unit separator: never the empty list. *)
Fixpoint split (sep : Ascii.ascii) (s : string) : list string :=
  match s with
  | EmptyString => [EmptyString]
  | String c r =>
      if Ascii.eqb c sep then EmptyString :: split sep r
      else match split sep r with
           | [] => [String c EmptyString]
           | w :: ws => String c w :: ws
           end
  end.

(** ** Data model *)

(** A browser [File]: the handlers read only [type]; the name tells files
    apart. *)
Module File.
Record t : Type := mk { name : string; type : string }.
End File.

(** [type Result = { id; image; text }] *)
Module Result.
Record t : Type := mk { id : string; image : string; text : string }.
End Result.

(** The parts of the remote collaborator's answer, as the handler reads
    them: [p.inlineData] (with [mimeType] and [data]) and [p.text]. *)
Module Blob.
Record t : Type := mk { mimeType : string; data : string }.
End Blob.

Module Part.
Record t : Type := mk { inlineData : option Blob.t; text : option string }.
End Part.

(** A candidate's content and the content's list of parts may each be
    missing; the handler reads [.content.parts] without a guard. *)
Module Content.
Record t : Type := mk { parts : option (list Part.t) }.
End Content.

Module Candidate.
Record t : Type := mk { content : option Content.t }.
End Candidate.

(** [candidates] may be missing altogether (hence [?.] in the source). *)
Module Response.
Record t : Type := mk { candidates : option (list Candidate.t) }.
End Response.

(** What [fileToBase64] resolves to; [data] is [result.split(',')[1]], which
    is missing when the reader's result holds no comma. *)
Module Encoded.
Record t : Type := mk { data : option string; mimeType : string }.
End Encoded.

(** The request handed to [ai.models.generateContent]. *)
Inductive RequestPart : Type :=
  | InlineDataPart (p : Encoded.t)
  | TextPart (t : string).

Inductive Modality : Type := IMAGE | TEXT.

Module Request.
Record t : Type := mk {
  model : string;
  parts : list RequestPart;
  responseModalities : list Modality }.
End Request.

(** A thrown value, as the [catch] clause reads it: only [e.message]. *)
Module Thrown.
Record t : Type := mk { message : option string }.
End Thrown.

(** [new Error(msg)] *)
Definition Error (msg : string) : Thrown.t := Thrown.mk (Some msg).

(** The [TypeError] thrown by reading [property] of [undefined]. The wording
    of its message is the engine's (here the one of V8); all that is used of
    it is that the thrown value carries this message. *)
Definition TypeError (property : string) : Thrown.t :=
  Error ("Cannot read properties of undefined (reading '" +:+ property +:+ "')").

(** The outside world during one fusion attempt. *)
Module Env.
Record t : Type := mk {
  (* [FileReader.readAsDataURL]: the data URL, or [None] for [onerror] *)
  readAsDataURL : File.t -> option string;
  (* the remote call: a response, or the value it throws *)
  generateContent : Request.t -> Thrown.t + Response.t;
  (* [Date.now()] *)
  now : N }.
End Env.

(** The state of [App] ([useState] cells, in declaration order;
    [loadingMessage] is display only and left out). *)
Record AppState : Type := mkApp {
  imageCount : nat;
  images : list (option File.t);
  prompt : string;
  loading : bool;
  activeResult : option Result.t;
  history : list Result.t;
  error : string }.

Definition initial : AppState :=
  {| imageCount := 2;
     images := replicate 5 None;
     prompt := "";
     loading := false;
     activeResult := None;
     history := [];
     error := "" |}.

Definition set_imageCount (n : nat) (s : AppState) : AppState :=
  mkApp n (images s) (prompt s) (loading s) (activeResult s) (history s) (error s).
Definition set_images (l : list (option File.t)) (s : AppState) : AppState :=
  mkApp (imageCount s) l (prompt s) (loading s) (activeResult s) (history s) (error s).
Definition set_prompt (p : string) (s : AppState) : AppState :=
  mkApp (imageCount s) (images s) p (loading s) (activeResult s) (history s) (error s).
Definition set_loading (b : bool) (s : AppState) : AppState :=
  mkApp (imageCount s) (images s) (prompt s) b (activeResult s) (history s) (error s).
Definition set_activeResult (r : option Result.t) (s : AppState) : AppState :=
  mkApp (imageCount s) (images s) (prompt s) (loading s) r (history s) (error s).
Definition set_history (h : list Result.t) (s : AppState) : AppState :=
  mkApp (imageCount s) (images s) (prompt s) (loading s) (activeResult s) h (error s).
Definition set_error (e : string) (s : AppState) : AppState :=
  mkApp (imageCount s) (images s) (prompt s) (loading s) (activeResult s) (history s) e.

(** ** Arrays of slots *)

(** [a[i]]: reading past the end gives [undefined], which like [null] is
    an empty slot. *)
Definition slot_at (a : list (option File.t)) (i : nat) : option File.t :=
  a !! i ≫= id.

(** [a[i] = v] on a copy of [a]: an index past the end extends the array,
    the gap reading as empty. *)
Definition array_set (a : list (option File.t)) (i : nat) (v : option File.t)
  : list (option File.t) :=
  if decide (i < length a) then <[i := v]> a
  else a ++ replicate (i - length a) None ++ [v].

(** [a.slice(0, n)] *)
Definition slice0 {A} (a : list A) (n : nat) : list A := take n a.

(** [a.filter(Boolean)] and [a.filter(img => img !== null)] on slots: the
    files of the populated slots, in order. *)
Definition populated (a : list (option File.t)) : list File.t := omap id a.

(** ** Code that may throw

    The body of the [try] block either produces a value or throws; [await]
    of a rejected promise throws the rejection. *)
Definition Try (A : Type) : Type := (Thrown.t + A)%type.

Definition throw {A} (e : Thrown.t) : Try A := inl e.
Definition resolve {A} (a : A) : Try A := inr a.

Definition try_bind {A B} (c : Try A) (k : A -> Try B) : Try B :=
  match c with
  | inl e => inl e
  | inr a => k a
  end.

Notation "'await' x <- c ; k" := (try_bind c (fun x => k))
  (at level 20, x name, c at level 100, k at level 200, only parsing).

(** [Promise.all]: resolves to all the values in order, or rejects with a
    rejection of one of the promises. *)
Fixpoint Promise_all {A} (ps : list (Try A)) : Try (list A) :=
  match ps with
  | [] => resolve []
  | p :: ps' =>
      await a <- p ;
      await rest <- Promise_all ps' ;
      resolve (a :: rest)
  end.

(** ** Helper of the source: [fileToBase64] *)

Definition fileToBase64 (env : Env.t) (file : File.t) : Try Encoded.t :=
  match Env.readAsDataURL env file with
  | Some result =>
      let base64Data := split ","%char result !! 1%nat in
      resolve (Encoded.mk base64Data (File.type file))
  | None =>
      (* reject(error): a ProgressEvent, which carries no message *)
      throw (Thrown.mk None)
  end.

(** ** The derived flag and the synchronous handlers *)

Definition isFuseDisabled (s : AppState) : bool :=
  let uploadedImages := populated (slice0 (images s) (imageCount s)) in
  loading s || negb (truthy (trim (prompt s)))
  || negb (length uploadedImages =? imageCount s)%nat.

(** The [for] loop of [handleImageCountChange]:
    [for (let i = count; i < newImages.length; i++) newImages[i] = null]. *)
Definition clear_from (count : nat) (newImages : list (option File.t))
  : list (option File.t) :=
  foldl (fun acc i => array_set acc i None) newImages
        (seq count (length newImages - count)).

(** [count] is [parseInt(e.target.value, 10)]. *)
Definition handleImageCountChange (count : nat) (s : AppState) : AppState :=
  set_images (clear_from count (images s)) (set_imageCount count s).

Definition handleFileChange (index : nat) (file : option File.t) (s : AppState)
  : AppState :=
  match file with
  | Some f =>
      if startsWith (File.type f) "image/" then
        set_error "" (set_images (array_set (images s) index (Some f)) s)
      else
        set_error "Please upload only image files." s
  | None => s
  end.

Definition handleRemoveImage (index : nat) (s : AppState) : AppState :=
  set_images (array_set (images s) index None) s.

Definition handleSelectHistory (item : Result.t) (s : AppState) : AppState :=
  set_activeResult (Some item) s.

(** ** [handleFuseClick] *)

(** The three state updates before the [try] block. *)
Definition fuse_begin (s : AppState) : AppState :=
  set_activeResult None (set_error "" (set_loading true s)).

(** The request literal. *)
Definition make_request (imageParts : list Encoded.t) (prompt : string)
  : Request.t :=
  Request.mk "gemini-2.5-flash-image-preview"
             (map InlineDataPart imageParts ++ [TextPart prompt])
             [IMAGE; TEXT].

(** [response.candidates?.[0]?.content.parts] as the receiver of [.find]:
    [undefined] when the optional chain stops at missing candidates or a
    missing first candidate (the chain then skips the call too), the list
    when there is one, and a [TypeError] when the first candidate has no
    content ([.parts] of [undefined]) or the content no list of parts
    ([.find] of [undefined]). *)
Definition first_candidate_parts (response : Response.t)
  : Try (option (list Part.t)) :=
  match Response.candidates response ≫= (fun cs => cs !! 0%nat) with
  | None => resolve None
  | Some c =>
      match Candidate.content c with
      | None => throw (TypeError "parts")
      | Some content =>
          match Content.parts content with
          | None => throw (TypeError "find")
          | Some parts => resolve (Some parts)
          end
      end
  end.

(** [... .find(p => p.inlineData)] *)
Definition find_imagePart (response : Response.t) : Try (option Part.t) :=
  await parts <- first_candidate_parts response ;
  resolve (parts ≫= List.find (fun p => bool_decide (is_Some (Part.inlineData p)))).

(** [... .find(p => p.text)] *)
Definition find_textPart (response : Response.t) : Try (option Part.t) :=
  await parts <- first_candidate_parts response ;
  resolve (parts ≫= List.find (fun p => truthy_opt (Part.text p))).

(** What the response is turned into: the new result, or a thrown error. *)
Definition interpret (now : N) (response : Response.t) : Try Result.t :=
  await imagePart <- find_imagePart response ;
  await textPart <- find_textPart response ;
  match imagePart ≫= Part.inlineData with
  | Some inlineData =>
      let imageUrl :=
        "data:" +:+ Blob.mimeType inlineData +:+ ";base64," +:+ Blob.data inlineData in
      resolve (Result.mk (pretty now) imageUrl
                 (or_else (textPart ≫= Part.text) "Here is your fused image!"))
  | None =>
      throw (Error (or_else (textPart ≫= Part.text)
                      "The AI could not generate an image from your request."))
  end.

(** The first half of the [try] block, up to the answer of the remote call.
    It reads [images], [imageCount] and [prompt] of the render in which the
    handler was created: the state [snap] at the click. *)
Definition fuse_response (env : Env.t) (snap : AppState) : Try Response.t :=
  await imageParts <-
    Promise_all (map (fileToBase64 env)
                     (populated (slice0 (images snap) (imageCount snap)))) ;
  if negb (length imageParts =? imageCount snap)%nat then
    throw (Error "Mismatch in image processing. Please try again.")
  else
    Env.generateContent env (make_request imageParts (prompt snap)).

(** The whole [try] block. *)
Definition fuse_try (env : Env.t) (snap : AppState) : Try Result.t :=
  await response <- fuse_response env snap ;
  interpret (Env.now env) response.

(** The state updates once the [try] block has settled: the two updates of
    the success branch, or the [catch] clause; then [finally]. [s] is the
    state at that moment ([setHistory] takes the previous history from it). *)
Definition fuse_settle (outcome : Try Result.t) (s : AppState) : AppState :=
  set_loading false
    match outcome with
    | inr newResult =>
        set_history (newResult :: slice0 (history s) 9)
                    (set_activeResult (Some newResult) s)
    | inl e =>
        set_error (or_else (Thrown.message e)
                           "An error occurred while fusing the images.") s
    end.

(** One whole attempt with nothing happening in between. *)
Definition handleFuseClick (env : Env.t) (s : AppState) : AppState :=
  fuse_settle (fuse_try env s) (fuse_begin s).

(** ** The application as a transition system

    Between the click and the settlement of a fusion the page stays
    interactive, so the machine keeps, next to the React state, the snapshot
    the pending attempt works on. *)
Record Machine : Type := mkMachine {
  app : AppState;
  pending : option AppState }.

Definition boot : Machine := mkMachine initial None.

Inductive Event : Type :=
  | ImageCountChange (count : nat)
  | FileChange (index : nat) (file : option File.t)
  | RemoveImage (index : nat)
  | PromptChange (value : string)
  | SelectHistory (position : nat)
  | FuseClick
  | FuseSettled (env : Env.t).

(** What an event does, and [None] when the page does not offer it: the
    selector has the values 2 to 5, an uploader is rendered for each index
    below [imageCount], its remove button only over a preview, a history
    tile for each entry, and the fuse button is disabled by
    [isFuseDisabled]. *)
Definition step (ev : Event) (m : Machine) : option Machine :=
  let s := app m in
  match ev with
  | ImageCountChange count =>
      if bool_decide (2 <= count <= 5)
      then Some (mkMachine (handleImageCountChange count s) (pending m))
      else None
  | FileChange index file =>
      if bool_decide (index < imageCount s)
      then Some (mkMachine (handleFileChange index file s) (pending m))
      else None
  | RemoveImage index =>
      if bool_decide (index < imageCount s) && bool_decide (is_Some (slot_at (images s) index))
      then Some (mkMachine (handleRemoveImage index s) (pending m))
      else None
  | PromptChange value => Some (mkMachine (set_prompt value s) (pending m))
  | SelectHistory position =>
      item ← history s !! position;
      Some (mkMachine (handleSelectHistory item s) (pending m))
  | FuseClick =>
      if isFuseDisabled s then None
      else Some (mkMachine (fuse_begin s) (Some s))
  | FuseSettled env =>
      snap ← pending m;
      Some (mkMachine (fuse_settle (fuse_try env snap) s) None)
  end.

(** The result a step adds, if it is the successful end of a fusion. *)
Definition produced (ev : Event) (m : Machine) : option Result.t :=
  match ev with
  | FuseSettled env =>
      snap ← pending m;
      match fuse_try env snap with inr r => Some r | inl _ => None end
  | _ => None
  end.

Fixpoint run (evs : list Event) (m : Machine) : option Machine :=
  match evs with
  | [] => Some m
  | ev :: evs' => m' ← step ev m; run evs' m'
  end.

(** The results the events of a run produce, oldest first. *)
Fixpoint results_of (evs : list Event) (m : Machine) : list Result.t :=
  match evs with
  | [] => []
  | ev :: evs' =>
      match step ev m with
      | Some m' => option_list (produced ev m) ++ results_of evs' m'
      | None => []
      end
  end.

Inductive reachable : Machine -> Prop :=
  | reachable_boot : reachable boot
  | reachable_step ev m m' :
      reachable m -> step ev m = Some m' -> reachable m'.

(** ** Sample data *)

Definition cat_png : File.t := File.mk "cat.png" "image/png".
Definition hat_jpg : File.t := File.mk "hat.jpg" "image/jpeg".
Definition notes_txt : File.t := File.mk "notes.txt" "text/plain".

Definition image_part (mime payload : string) : Part.t :=
  Part.mk (Some (Blob.mk mime payload)) None.
Definition text_part (t : string) : Part.t := Part.mk None (Some t).

Definition respond (ps : list Part.t) : Response.t :=
  Response.mk (Some [Candidate.mk (Some (Content.mk (Some ps)))]).

(** A world in which every file reads fine and the model answers [r]. *)
Definition env_answering (clock : N) (r : Thrown.t + Response.t) : Env.t :=
  Env.mk (fun f => Some ("data:" +:+ File.type f +:+ ";base64,AAAA"))
         (fun _ => r) clock.

(** Two images in place and a prompt typed. *)
Definition ready : AppState :=
  set_prompt "merge these"
    (handleFileChange 1 (Some hat_jpg) (handleFileChange 0 (Some cat_png) initial)).

(** Four uploaders chosen and the last one filled. *)
Definition four_up : AppState :=
  handleFileChange 3 (Some cat_png) (handleImageCountChange 4 ready).

(** The model answers with an image and a caption, or with a refusal. *)
Definition env_fusing : Env.t :=
  env_answering 1700000000000
    (inr (respond [image_part "image/png" "PPPP"; text_part "Fused!"])).
Definition env_refusing : Env.t :=
  env_answering 1700000005000 (inr (respond [text_part "unsafe content"])).

(** The state after one successful fusion from [ready]. *)
Definition fused : AppState := handleFuseClick env_fusing ready.

(** The model answers with an image; the clock reads [k]. *)
Definition env_at (k : N) : Env.t :=
  env_answering k (inr (respond [image_part "image/png" "PPPP"; text_part "Fused!"])).

Definition result_at (k : N) : Result.t :=
  Result.mk (pretty k) "data:image/png;base64,PPPP" "Fused!".

(** Two uploads, a prompt, then eleven fusions one after the other. *)
Definition eleven_fusions : list Event :=
  [FileChange 0 (Some cat_png); FileChange 1 (Some hat_jpg);
   PromptChange "merge these"]
  ++ concat (map (fun k => [FuseClick; FuseSettled (env_at k)])
                 [1; 2; 3; 4; 5; 6; 7; 8; 9; 10; 11]%N).

(** What the page renders: one uploader per index below [imageCount], each
    showing [images[i]]
    ([Array.from({ length: imageCount }).map((_, i) => ...)]). *)
Definition uploaders (s : AppState) : list (nat * option File.t) :=
  map (fun i => (i, slot_at (images s) i)) (seq 0 (imageCount s)).

(** ** The rest of the page *)

(** [ImageUploader]: its local [isDragging] flag and the two ways a file
    reaches [onFileChange]. A file list is [None] when the browser hands
    over none ([e.dataTransfer.files] falsy, [e.target.files] null). *)
Definition handleDragEnter (isDragging : bool) : bool := true.
Definition handleDragLeave (isDragging : bool) : bool := false.

(** [setIsDragging(false); if (files && files[0]) onFileChange(index, files[0])] *)
Definition handleDrop (index : nat) (files : option (list File.t))
    (isDragging : bool) (s : AppState) : bool * AppState :=
  (false,
   match files with
   | Some (f :: _) => handleFileChange index (Some f) s
   | _ => s
   end).

(** The [onChange] of the hidden input:
    [onFileChange(index, e.target.files?.[0] ?? null)]. *)
Definition handleInputChange (index : nat) (files : option (list File.t))
    (s : AppState) : AppState :=
  handleFileChange index (files ≫= head) s.

(** [PromptExamples]: the fixed list; a click calls [setPrompt] with the
    example. *)
Definition examples : list string :=
  ["A cat wearing the sunglasses from image 2";
   "Merge all images into a surreal landscape";
   "Image 1 in the artistic style of image 2";
   "Create a pop-art collage from these photos"].

(** The effect that rotates the loading message: its list, the state it
    keeps while [loading] holds (the counter [i] of the closure and the
    [loadingMessage] cell; [messages[i]] past the end would be [undefined],
    here [None]), the body run when [loading] becomes true and the callback
    of [setInterval]. *)
Definition messages : list string :=
  ["Consulting the AI muse...";
   "Fusing pixels with creativity...";
   "This can take a minute, hold tight!";
   "Unleashing digital magic..."].

Record Rotator : Type := mkRotator {
  rot_i : nat;
  loadingMessage : option string }.

Definition rotator_start : Rotator := mkRotator 0 (messages !! 0%nat).

Definition rotator_tick (r : Rotator) : Rotator :=
  let i := ((rot_i r + 1) mod length messages)%nat in
  mkRotator i (messages !! i).

(** What the result section shows
    ([(loading || error || activeResult) && <section> ...]). *)
Definition shows_section (s : AppState) : bool :=
  loading s || truthy (error s) || bool_decide (is_Some (activeResult s)).

(** [loading && <div className="loading-container">] *)
Definition shows_loader (s : AppState) : bool :=
  shows_section s && loading s.

(** [error && !loading && <p className="error-message">] *)
Definition shown_error (s : AppState) : option string :=
  if shows_section s && truthy (error s) && negb (loading s)
  then Some (error s) else None.

(** [!loading && <ResultDisplay result={activeResult} />], and
    [ResultDisplay] renders nothing without a result. *)
Definition shown_result (s : AppState) : option Result.t :=
  if shows_section s && negb (loading s) then activeResult s else None.

(** [HistoryDisplay]: nothing for an empty history, else one tile per
    entry, in order. *)
Definition shown_history (s : AppState) : option (list Result.t) :=
  if bool_decide (length (history s) = 0) then None else Some (history s).

(** ** Vocabulary of the statements *)

(** Every unit of [s] is white space. *)
Fixpoint blank (s : string) : bool :=
  match s with
  | EmptyString => true
  | String c r => is_js_whitespace c && blank r
  end.

(** The unit [c] occurs in [s]. *)
Fixpoint occurs (c : Ascii.ascii) (s : string) : bool :=
  match s with
  | EmptyString => false
  | String d r => Ascii.eqb d c || occurs c r
  end.

(** Events other than the settlement of a fusion. *)
Definition not_settlement (ev : Event) : bool :=
  match ev with FuseSettled _ => false | _ => true end.

(** What holds of the slots and the results in every state the page can
    be in. *)
Definition slots_in_shape (s : AppState) : Prop :=
  length (images s) = 5
  /\ 2 <= imageCount s <= 5
  /\ forall i, imageCount s <= i -> slot_at (images s) i = None.

Definition only_images (s : AppState) : Prop :=
  forall i f, slot_at (images s) i = Some f ->
              startsWith (File.type f) "image/" = true.

Definition active_in_history (s : AppState) : Prop :=
  forall r, activeResult s = Some r -> r ∈ history s.

(** All of it at once, with what holds of the snapshot of a pending
    attempt. *)
Definition page_invariant (m : Machine) : Prop :=
  slots_in_shape (app m) /\ only_images (app m) /\ active_in_history (app m)
  /\ forall snap, pending m = Some snap ->
       isFuseDisabled snap = false /\ slots_in_shape snap /\ only_images snap.

(** * Properties *)

(** ** The string helpers on sample inputs *)

Example trim_sample : trim "  merge these  " = "merge these".
Proof. reflexivity. Qed.

Example trim_blank : trim "   " = "".
Proof. reflexivity. Qed.

Example split_data_url :
  split "," "data:image/png;base64,AAAA" = ["data:image/png;base64"; "AAAA"].
Proof. reflexivity. Qed.

Example fileToBase64_sample :
  fileToBase64 env_fusing cat_png = inr (Encoded.mk (Some "AAAA") "image/png").
Proof. reflexivity. Qed.

(** ** Slots *)

Section Slots.
Implicit Types (a : list (option File.t)) (i j n : nat) (v : option File.t).

Lemma slot_at_nil i : slot_at [] i = None.
Proof. by destruct i. Qed.

Lemma slot_at_cons_0 v a : slot_at (v :: a) 0 = v.
Proof. by destruct v. Qed.

Lemma slot_at_cons_S v a i : slot_at (v :: a) (S i) = slot_at a i.
Proof. done. Qed.

Lemma slot_at_ge a i : length a <= i -> slot_at a i = None.
Proof. intros Hi. unfold slot_at. by rewrite lookup_ge_None_2. Qed.

Lemma slot_at_array_set_eq a i v : slot_at (array_set a i v) i = v.
Proof.
  unfold slot_at, array_set. case_decide as Hi.
  - rewrite list_lookup_insert_eq by done. by destruct v.
  - rewrite lookup_app_r by lia.
    rewrite lookup_app_r; rewrite length_replicate; [|lia].
    replace (i - length a - (i - length a)) with 0 by lia. by destruct v.
Qed.

Lemma slot_at_array_set_ne a i j v :
  i ≠ j -> slot_at (array_set a i v) j = slot_at a j.
Proof.
  intros Hne. unfold slot_at, array_set. case_decide as Hi.
  - by rewrite list_lookup_insert_ne.
  - destruct (decide (j < length a)) as [Hj|Hj].
    + by rewrite lookup_app_l.
    + rewrite (lookup_ge_None_2 a j) by lia.
      rewrite lookup_app_r by lia.
      destruct (decide (j - length a < i - length a)) as [Hlt|Hge].
      * rewrite lookup_app_l by (rewrite length_replicate; lia).
        by rewrite lookup_replicate_2.
      * rewrite lookup_app_r; rewrite length_replicate; [|lia].
        rewrite lookup_ge_None_2; [done|]. simpl. lia.
Qed.

(** Clearing a list of indices one after the other. *)
Lemma slot_at_foldl_clear (idxs : list nat) a j :
  slot_at (foldl (fun acc i => array_set acc i None) a idxs) j
  = if bool_decide (j ∈ idxs) then None else slot_at a j.
Proof.
  revert a. induction idxs as [|i idxs IH]; intros a; cbn [foldl].
  - case_bool_decide as Hin; [|done]. by apply elem_of_nil in Hin.
  - rewrite IH. destruct (decide (j = i)) as [->|Hne].
    + rewrite slot_at_array_set_eq.
      rewrite (bool_decide_eq_true_2 (i ∈ i :: idxs)) by apply list_elem_of_here.
      by case_bool_decide.
    + rewrite slot_at_array_set_ne by done.
      apply (f_equal (fun b : bool => if b then None else slot_at a j)).
      apply bool_decide_ext. rewrite elem_of_cons.
    split; [intros Hin; right; exact Hin | intros [Heq|Hin]; [contradiction | exact Hin]].
Qed.

Lemma slot_at_clear_from_lt n a i :
  i < n -> slot_at (clear_from n a) i = slot_at a i.
Proof.
  intros Hi. unfold clear_from. rewrite slot_at_foldl_clear.
  rewrite bool_decide_eq_false_2; [done|]. rewrite elem_of_seq. lia.
Qed.

Lemma slot_at_clear_from_ge n a i :
  n <= i -> slot_at (clear_from n a) i = None.
Proof.
  intros Hi. unfold clear_from. rewrite slot_at_foldl_clear.
  case_bool_decide as Hin; [done|].
  apply slot_at_ge. rewrite elem_of_seq in Hin. lia.
Qed.

Lemma length_populated_le a : length (populated a) <= length a.
Proof.
  induction a as [|[f|] a IH]; simpl; [lia| |].
  - unfold populated in *. simpl. lia.
  - unfold populated in *. simpl. lia.
Qed.

(** The slice has [n] populated entries exactly when the first [n] slots
    all hold a file. *)
Lemma populated_slice_full a n :
  length (populated (slice0 a n)) = n
  <-> forall i, i < n -> is_Some (slot_at a i).
Proof.
  unfold slice0. revert a. induction n as [|n IH]; intros a.
  - rewrite take_0. split; [intros _ i Hi; lia | done].
  - destruct a as [|[f|] a].
    + split; [done|]. intros H. destruct (H 0) as [x Hx]; [lia|]. done.
    + change (populated (take (S n) (Some f :: a)))
        with (f :: populated (take n a)).
      simpl. split.
      * intros Hlen i Hi. destruct i as [|i]; [by eexists|].
        rewrite slot_at_cons_S. apply IH; lia.
      * intros H. f_equal. apply IH. intros i Hi.
        specialize (H (S i)). rewrite slot_at_cons_S in H. apply H. lia.
    + change (populated (take (S n) (None :: a)))
        with (populated (take n a)).
      split.
      * intros Hlen. pose proof (length_populated_le (take n a)) as Hle.
        rewrite length_take in Hle. lia.
      * intros H. destruct (H 0) as [x Hx]; [lia|]. done.
Qed.
End Slots.

(** ** The fuse button *)

(** C3: the fuse action is enabled (not disabled) exactly when the trimmed
    prompt is non-empty, every slot with index below [imageCount] holds a
    file, and no fusion is pending ([loading] is false). *)
Theorem fuse_enabled_iff (s : AppState) :
  isFuseDisabled s = false
  <-> trim (prompt s) ≠ ""
      /\ (forall i, i < imageCount s -> is_Some (slot_at (images s) i))
      /\ loading s = false.
Proof.
  unfold isFuseDisabled.
  rewrite !orb_false_iff, !negb_false_iff, Nat.eqb_eq, populated_slice_full.
  destruct (trim (prompt s)) as [|c r] eqn:Htrim; simpl.
  - split; [intros [[_ ?] _]; done | intros [? _]; done].
  - split.
    + intros [[Hl _] Hall]. done.
    + intros (_ & Hall & Hl). done.
Qed.

(** ** Choosing the number of images *)

(** C8: for [n] among 2, 3, 4, 5, [handleImageCountChange n] empties every
    slot at an index from [n] on, keeps the content of every slot below [n],
    and afterwards exactly the [n] slots 0 .. n-1 are addressable. *)
Theorem image_count_change_slots (n : nat) (s : AppState) :
  2 <= n <= 5 ->
  let s' := handleImageCountChange n s in
  (forall i, n <= i -> slot_at (images s') i = None)
  /\ (forall i, i < n -> slot_at (images s') i = slot_at (images s) i)
  /\ imageCount s' = n
  /\ length (uploaders s') = n
  /\ map fst (uploaders s') = seq 0 n.
Proof.
  intros _ s'. subst s'. unfold handleImageCountChange, uploaders. simpl.
  split; [|split; [|split; [|split]]].
  - intros i Hi. by apply slot_at_clear_from_ge.
  - intros i Hi. by apply slot_at_clear_from_lt.
  - done.
  - by rewrite length_map, length_seq.
  - rewrite List.map_map. simpl. apply List.map_id.
Qed.

Lemma image_count_change_slots_witness :
  let s' := handleImageCountChange 3 four_up in
  slot_at (images four_up) 3 = Some cat_png
  /\ slot_at (images s') 3 = None
  /\ slot_at (images s') 1 = Some hat_jpg
  /\ length (uploaders s') = 3.
Proof.
  destruct (image_count_change_slots 3 four_up) as (Hge & Hlt & _ & Hlen & _).
  - lia.
  - split; [reflexivity|]. split; [apply Hge; lia|].
    split; [rewrite Hlt by lia; reflexivity | exact Hlen].
Defined.

(** ** Assigning and removing files *)

(** C6, as the source has it: a file whose type does not start with
    ["image/"] leaves every slot as it was and sets the error to
    ["Please upload only image files."] (the message ends in a full stop);
    a file whose type does is stored in slot [i], the other slots keep
    their content, and the error is emptied. *)
Theorem file_change_validation (i : nat) (f : File.t) (s : AppState) :
  let s' := handleFileChange i (Some f) s in
  (startsWith (File.type f) "image/" = false ->
     images s' = images s
     /\ error s' = "Please upload only image files.")
  /\ (startsWith (File.type f) "image/" = true ->
        slot_at (images s') i = Some f
        /\ (forall j, j ≠ i -> slot_at (images s') j = slot_at (images s) j)
        /\ error s' = "").
Proof.
  intros s'. subst s'. unfold handleFileChange. split; intros Hty; rewrite Hty.
  - done.
  - simpl. split; [apply slot_at_array_set_eq|]. split; [|done].
    intros j Hj. by apply slot_at_array_set_ne.
Qed.

Lemma file_change_validation_witness :
  (images (handleFileChange 0 (Some notes_txt) ready) = images ready
   /\ error (handleFileChange 0 (Some notes_txt) ready)
      = "Please upload only image files.")
  /\ (slot_at (images (handleFileChange 2 (Some cat_png)
                         (handleFileChange 0 (Some notes_txt) ready))) 2
      = Some cat_png
      /\ error (handleFileChange 2 (Some cat_png)
                  (handleFileChange 0 (Some notes_txt) ready)) = "").
Proof.
  split.
  - apply (file_change_validation 0 notes_txt ready). reflexivity.
  - destruct (file_change_validation 2 cat_png
                (handleFileChange 0 (Some notes_txt) ready)) as [_ Hok].
    destruct Hok as (Hslot & _ & Herr); [reflexivity|]. by split.
Defined.

(** C6 as the claim words the message: without the final full stop it is not
    the error the handler sets for a file that is not an image. *)
Lemma file_change_message_differs :
  startsWith (File.type notes_txt) "image/" = false
  /\ error (handleFileChange 0 (Some notes_txt) ready)
     ≠ "Please upload only image files".
Proof. split; [reflexivity|]. vm_compute. discriminate. Qed.

(** C7 as stated (the file-change handler called with no file empties the
    slot) fails: slot 0 keeps its file. *)
Lemma file_change_none_keeps_slot :
  slot_at (images ready) 0 = Some cat_png
  /\ slot_at (images (handleFileChange 0 None ready)) 0 ≠ None.
Proof. split; [reflexivity|]. vm_compute. discriminate. Qed.

(** C7, as the source has it: the file-change handler called with no file
    changes nothing at all; it is the remove action that empties slot [i],
    whatever the slot held. *)
Theorem file_change_none_noop_remove_clears (i : nat) (s : AppState) :
  handleFileChange i None s = s
  /\ slot_at (images (handleRemoveImage i s)) i = None.
Proof.
  split; [done|]. unfold handleRemoveImage. simpl. apply slot_at_array_set_eq.
Qed.

Lemma or_else_truthy (o : option string) (fallback : string) :
  truthy fallback = true -> truthy (or_else o fallback) = true.
Proof.
  intros Hfb. destruct o as [t|]; simpl; [|done].
  by destruct (truthy t) eqn:Ht.
Qed.

Lemma truthy_nonempty (t : string) : truthy t = true -> t ≠ "".
Proof. by destruct t. Qed.

(** The error a failed attempt leaves is never the empty string. *)
Lemma fuse_settle_error_nonempty (e : Thrown.t) (s : AppState) :
  error (fuse_settle (inl e) s) ≠ "".
Proof. simpl. by apply truthy_nonempty, or_else_truthy. Qed.

(** C10: the remove action empties slot [i] and leaves every other slot and
    the error as they were; among all the events of the page, only the
    assignment of an image file and the start of a fusion attempt turn a
    non-empty error into the empty one. *)
Theorem remove_image_frame (i : nat) (s : AppState) :
  (let s' := handleRemoveImage i s in
   slot_at (images s') i = None
   /\ (forall j, j ≠ i -> slot_at (images s') j = slot_at (images s) j)
   /\ error s' = error s)
  /\ (forall ev m m',
         step ev m = Some m' ->
         error (app m) ≠ "" -> error (app m') = "" ->
         ev = FuseClick
         \/ exists index f, ev = FileChange index (Some f)
                            /\ startsWith (File.type f) "image/" = true).
Proof.
  split.
  - simpl. split; [apply slot_at_array_set_eq|]. split; [|done].
    intros j Hj. by apply slot_at_array_set_ne.
  - intros ev m m' Hstep Hbefore Hafter.
    destruct ev as [count|index file|index|value|position| |env];
      simpl in Hstep.
    + case_bool_decide; by simplify_eq/=.
    + case_bool_decide; simplify_eq.
      destruct file as [f|]; simpl in Hafter; [|done].
      destruct (startsWith (File.type f) "image/") eqn:Hty.
      * right. by exists index, f.
      * done.
    + destruct (bool_decide (index < imageCount (app m))
                && bool_decide (is_Some (slot_at (images (app m)) index)));
        by simplify_eq/=.
    + by simplify_eq/=.
    + destruct (history (app m) !! position); by simplify_eq/=.
    + by left.
    + destruct (pending m) as [snap|]; simplify_eq/=.
      destruct (fuse_try env snap) as [e|r]; simpl in Hafter; [|done].
      by apply (fuse_settle_error_nonempty e (app m)) in Hafter.
Qed.

Lemma remove_image_frame_witness :
  let bad := handleFileChange 1 (Some notes_txt) ready in
  error bad = "Please upload only image files."
  /\ slot_at (images (handleRemoveImage 1 bad)) 1 = None
  /\ slot_at (images (handleRemoveImage 1 bad)) 0 = Some cat_png
  /\ error (handleRemoveImage 1 bad) = error bad
  /\ (FileChange 0 (Some cat_png) = FuseClick
      \/ exists index f, FileChange 0 (Some cat_png) = FileChange index (Some f)
                         /\ startsWith (File.type f) "image/" = true).
Proof.
  intros bad.
  destruct (remove_image_frame 1 bad) as [(Hclear & Hframe & Herr) Honly].
  split; [reflexivity|]. split; [exact Hclear|].
  split; [rewrite Hframe by lia; reflexivity|]. split; [exact Herr|].
  apply (Honly (FileChange 0 (Some cat_png)) (mkMachine bad None)
               (mkMachine (handleFileChange 0 (Some cat_png) bad) None)).
  - reflexivity.
  - vm_compute. discriminate.
  - reflexivity.
Defined.

(** ** Fusion attempts *)

Example fused_is_reachable :
  run [FileChange 0 (Some cat_png); FileChange 1 (Some hat_jpg);
       PromptChange "merge these"; FuseClick; FuseSettled env_fusing] boot
  = Some (mkMachine fused None).
Proof. reflexivity. Qed.

(** The three ways an attempt fails, on sample data: a slot emptied between
    the gating and the run, an error of the remote call, an answer without
    image. *)
Example fuse_try_mismatch :
  fuse_try env_fusing (handleRemoveImage 1 ready)
  = inl (Error "Mismatch in image processing. Please try again.").
Proof. reflexivity. Qed.

Example fuse_try_transport :
  fuse_try (env_answering 7 (inl (Error "Failed to fetch"))) ready
  = inl (Error "Failed to fetch").
Proof. reflexivity. Qed.

Example fuse_try_no_image :
  fuse_try env_refusing ready = inl (Error "unsafe content").
Proof. reflexivity. Qed.

(** A thrown value without message surfaces as the generic error. *)
Example fuse_unreadable_file :
  error (handleFuseClick (Env.mk (fun _ => None) (fun _ => inr (respond [])) 7) ready)
  = "An error occurred while fusing the images.".
Proof. reflexivity. Qed.

(** While an attempt is pending, and only then, [loading] is set: the fuse
    button never starts a second attempt over a pending one. *)
Lemma reachable_loading_pending (m : Machine) :
  reachable m -> loading (app m) = true <-> is_Some (pending m).
Proof.
  intros Hreach. induction Hreach as [|ev m m' _ IH Hstep].
  - simpl. split; [done | by intros [? ?]].
  - destruct ev as [count|index file|index|value|position| |env];
      simpl in Hstep.
    + case_bool_decide; by simplify_eq/=.
    + case_bool_decide; simplify_eq. simpl.
      destruct file as [f|]; [|done]. unfold handleFileChange.
      by destruct (startsWith _ _).
    + destruct (bool_decide (index < imageCount (app m))
                && bool_decide (is_Some (slot_at (images (app m)) index)));
        by simplify_eq/=.
    + by simplify_eq/=.
    + destruct (history (app m) !! position); by simplify_eq/=.
    + destruct (isFuseDisabled (app m)); simplify_eq/=.
      split; [by eexists | done].
    + destruct (pending m) as [snap|]; simplify_eq/=.
      split; [|by intros [? ?]].
      by destruct (fuse_try env snap).
Qed.

(** C1 as stated fails when a result is on display: the failed attempt
    leaves no active result. *)
Lemma failed_fusion_clears_active :
  fuse_try env_refusing fused = inl (Error "unsafe content")
  /\ activeResult fused
     = Some (Result.mk "1700000000000" "data:image/png;base64,PPPP" "Fused!")
  /\ activeResult (handleFuseClick env_refusing fused) ≠ activeResult fused.
Proof. split; [reflexivity|]. split; [reflexivity|]. vm_compute. discriminate. Qed.

(** C1, as the source has it: whatever makes the attempt fail (a file that
    cannot be read, the encoding mismatch, an error of the remote call, an
    answer without image), the history after the attempt is the history
    before it and the failure itself changes neither the active result nor
    the history; the active result, however, was emptied when the attempt
    started, so it is empty afterwards, and equal to the one before exactly
    when that was empty. *)
Theorem failed_fusion_effect (env : Env.t) (s : AppState) (e : Thrown.t) :
  fuse_try env s = inl e ->
  let s' := handleFuseClick env s in
  history s' = history s
  /\ activeResult s' = None
  /\ (activeResult s' = activeResult s <-> activeResult s = None)
  /\ loading s' = false
  /\ error s' ≠ ""
  /\ (forall s1, activeResult (fuse_settle (inl e) s1) = activeResult s1
                 /\ history (fuse_settle (inl e) s1) = history s1).
Proof.
  intros Hfail s'. subst s'. unfold handleFuseClick. rewrite Hfail.
  split; [done|]. split; [done|]. split; [|split; [done|split]].
  - simpl. split; intros H; by rewrite H.
  - apply fuse_settle_error_nonempty.
  - done.
Qed.

Lemma failed_fusion_effect_witness :
  history (handleFuseClick env_refusing fused) = history fused
  /\ activeResult (handleFuseClick env_refusing fused) = None
  /\ error (handleFuseClick env_refusing fused) ≠ "".
Proof.
  destruct (failed_fusion_effect env_refusing fused (Error "unsafe content"))
    as (Hhist & Hactive & _ & _ & Herr & _).
  - reflexivity.
  - split; [exact Hhist|]. split; [exact Hactive | exact Herr].
Defined.

(** *** Reading the answer *)

(** Both finds run over the same chain: they throw together. *)
Lemma find_parts_cases (resp : Response.t) :
  (exists e, first_candidate_parts resp = inl e
             /\ find_imagePart resp = inl e /\ find_textPart resp = inl e)
  \/ (exists o, first_candidate_parts resp = inr o
                /\ find_imagePart resp
                   = inr (o ≫= List.find
                            (fun p => bool_decide (is_Some (Part.inlineData p))))
                /\ find_textPart resp
                   = inr (o ≫= List.find (fun p => truthy_opt (Part.text p)))).
Proof.
  unfold find_imagePart, find_textPart.
  destruct (first_candidate_parts resp) as [e|o]; [left|right]; by eexists.
Qed.

(** The text part the handler finds carries a non-empty text. *)
Lemma find_textPart_truthy (resp : Response.t) (tp : Part.t) :
  find_textPart resp = inr (Some tp) ->
  exists T, Part.text tp = Some T /\ T ≠ "".
Proof.
  unfold find_textPart.
  destruct (first_candidate_parts resp) as [e|[parts|]]; simpl; [done| |done].
  intros [= Hfind]. apply List.find_some in Hfind as [_ Htruthy].
  destruct (Part.text tp) as [T|]; [|done].
  exists T. split; [done|]. by apply truthy_nonempty.
Qed.

(** The image part the handler finds carries inline data. *)
Lemma find_imagePart_inlineData (resp : Response.t) (ip : Part.t) :
  find_imagePart resp = inr (Some ip) -> is_Some (Part.inlineData ip).
Proof.
  unfold find_imagePart.
  destruct (first_candidate_parts resp) as [e|[parts|]]; simpl; [done| |done].
  intros [= Hfind]. apply List.find_some in Hfind as [_ Hdata].
  by apply bool_decide_eq_true_1 in Hdata.
Qed.

(** No image part is found exactly when the chain does not throw and no
    part of the first candidate carries inline data (or there is no first
    candidate). *)
Lemma find_imagePart_None (resp : Response.t) :
  find_imagePart resp = inr None
  <-> first_candidate_parts resp = inr None
      \/ exists parts, first_candidate_parts resp = inr (Some parts)
                       /\ Forall (fun p => Part.inlineData p = None) parts.
Proof.
  unfold find_imagePart.
  destruct (first_candidate_parts resp) as [e|[parts|]]; simpl.
  - split; [done | intros [?|(? & ? & _)]; done].
  - split.
    + intros [= Hnone]. right. exists parts. split; [done|].
      apply Forall_forall. intros p Hp. apply list_elem_of_In in Hp.
      pose proof (List.find_none _ _ Hnone p Hp) as Hp'. simpl in Hp'.
      apply bool_decide_eq_false_1 in Hp'.
      destruct (Part.inlineData p); [|done]. destruct Hp'. by eexists.
    + intros [?|(ps & [= <-] & Hall)]; [done|]. f_equal.
      induction Hall as [|p ps Hp _ IH]; [done|]. simpl.
      rewrite Hp. rewrite bool_decide_eq_false_2; [done|]. by intros [? ?].
  - split; [by left | done].
Qed.

(** When the chain gives a list, no text part is found exactly when every
    part has no text or the empty text. *)
Lemma find_textPart_None (resp : Response.t) (parts : list Part.t) :
  first_candidate_parts resp = inr (Some parts) ->
  find_textPart resp = inr None
  <-> Forall (fun p => Part.text p = None \/ Part.text p = Some "") parts.
Proof.
  unfold find_textPart. intros ->. simpl. split.
  - intros [= Hnone]. apply Forall_forall. intros p Hp.
    apply list_elem_of_In in Hp.
    pose proof (List.find_none _ _ Hnone p Hp) as Hp'. simpl in Hp'.
    destruct (Part.text p) as [[|c r]|]; [by right|done|by left].
  - intros Hall. f_equal.
    induction Hall as [|p ps Hp _ IH]; [done|]. simpl.
    by destruct Hp as [-> | ->].
Qed.

(** C4 as stated fails for the empty text: the answer holds one image part
    and one text part carrying [""], yet the caption of the active result is
    not that text. *)
Lemma fuse_empty_caption_replaced :
  let resp := respond [image_part "image/png" "PPPP"; text_part ""] in
  let s' := handleFuseClick (env_answering 1700000000000 (inr resp)) ready in
  first_candidate_parts resp
  = inr (Some [image_part "image/png" "PPPP"; text_part ""])
  /\ Part.text (text_part "") = Some ""
  /\ Result.image <$> activeResult s' = Some "data:image/png;base64,PPPP"
  /\ Result.text <$> activeResult s' ≠ Some "".
Proof.
  split; [reflexivity|]. split; [reflexivity|]. split; [reflexivity|].
  vm_compute. discriminate.
Qed.

(** C4, as the source has it: when the remote call answers and, in the
    first candidate, the first part with inline data carries mime type [M]
    and payload [P] and the first part with a non-empty text carries [T],
    the attempt succeeds, the active result is the result with the
    identifier taken from the clock, the image ["data:" M ";base64," P] and
    the text [T], and the history starts with that same result. *)
Theorem fusion_success_result (env : Env.t) (s : AppState) (resp : Response.t)
    (ip tp : Part.t) (M P T : string) :
  fuse_response env s = inr resp ->
  find_imagePart resp = inr (Some ip) -> Part.inlineData ip = Some (Blob.mk M P) ->
  find_textPart resp = inr (Some tp) -> Part.text tp = Some T ->
  let newResult :=
    Result.mk (pretty (Env.now env)) ("data:" +:+ M +:+ ";base64," +:+ P) T in
  let s' := handleFuseClick env s in
  T ≠ ""
  /\ fuse_try env s = inr newResult
  /\ activeResult s' = Some newResult
  /\ history s' !! 0 = Some newResult.
Proof.
  intros Hresp Hip Hdata Htp Htext newResult s'.
  destruct (find_textPart_truthy resp tp Htp) as (T' & HT' & Hne).
  assert (T' = T) as -> by congruence.
  assert (fuse_try env s = inr newResult) as Htry.
  { unfold fuse_try. rewrite Hresp. simpl. unfold interpret.
    rewrite Hip, Htp. simpl. rewrite Hdata, Htext. simpl.
    destruct T; [done|]. done. }
  split; [done|]. split; [done|].
  subst s'. unfold handleFuseClick. rewrite Htry. by split.
Qed.

Lemma fusion_success_result_witness :
  activeResult fused
  = Some (Result.mk "1700000000000" "data:image/png;base64,PPPP" "Fused!")
  /\ history fused !! 0
     = Some (Result.mk "1700000000000" "data:image/png;base64,PPPP" "Fused!").
Proof.
  destruct (fusion_success_result env_fusing ready
              (respond [image_part "image/png" "PPPP"; text_part "Fused!"])
              (image_part "image/png" "PPPP") (text_part "Fused!")
              "image/png" "PPPP" "Fused!"
              eq_refl eq_refl eq_refl eq_refl eq_refl)
    as (_ & _ & Hactive & Hhist).
  split; [exact Hactive | exact Hhist].
Defined.

(** C5 as stated fails for the empty text: the answer holds no image part
    and one text part carrying [""], yet the error is not that text. *)
Lemma no_image_empty_text_not_surfaced :
  let resp := respond [text_part ""] in
  let s' := handleFuseClick (env_answering 1700000000000 (inr resp)) ready in
  first_candidate_parts resp = inr (Some [text_part ""])
  /\ find_imagePart resp = inr None
  /\ Part.text (text_part "") = Some ""
  /\ error s' ≠ "".
Proof.
  split; [reflexivity|]. split; [reflexivity|]. split; [reflexivity|].
  vm_compute. discriminate.
Qed.

(** C5, as the source has it: when the remote call answers and the chain
    of line 240 finds no image part (the response has no first candidate,
    or its first candidate's content carries a list of parts none of which
    has inline data), the attempt fails; the error is the text of the first
    part carrying a non-empty text when there is one, and the fixed fallback
    when there is none. A first candidate without content or without a list
    of parts is not covered: there the chain throws. *)
Theorem no_image_error_message (env : Env.t) (s : AppState) (resp : Response.t) :
  fuse_response env s = inr resp ->
  find_imagePart resp = inr None ->
  let s' := handleFuseClick env s in
  (exists e, fuse_try env s = inl e)
  /\ (forall tp T, find_textPart resp = inr (Some tp) -> Part.text tp = Some T ->
                   error s' = T)
  /\ (find_textPart resp = inr None ->
      error s' = "The AI could not generate an image from your request.")
  /\ (exists o, find_textPart resp = inr o).
Proof.
  intros Hresp Hnoimg s'. subst s'.
  unfold handleFuseClick, fuse_try. rewrite Hresp. simpl.
  unfold interpret. rewrite Hnoimg. simpl.
  destruct (find_parts_cases resp) as [(e & _ & He & _)|(o & _ & _ & Ho)];
    [congruence|].
  rewrite Ho. simpl. split; [by eexists|]. split; [|split; [|by eexists]].
  - intros tp T [= Htp] Htext.
    destruct (find_textPart_truthy resp tp) as (T' & HT' & Hne);
      [by rewrite Ho, Htp|].
    assert (T' = T) as -> by congruence.
    rewrite Htp. simpl. rewrite Htext. simpl. by destruct T.
  - intros [= ->]. done.
Qed.

Lemma no_image_error_message_witness :
  error (handleFuseClick env_refusing ready) = "unsafe content"
  /\ error (handleFuseClick (env_answering 7 (inr (respond []))) ready)
     = "The AI could not generate an image from your request."
  /\ error (handleFuseClick (env_answering 7 (inr (Response.mk None))) ready)
     = "The AI could not generate an image from your request.".
Proof.
  split; [|split].
  - destruct (no_image_error_message env_refusing ready
                (respond [text_part "unsafe content"]) eq_refl eq_refl)
      as (_ & Htext & _).
    exact (Htext (text_part "unsafe content") "unsafe content" eq_refl eq_refl).
  - destruct (no_image_error_message (env_answering 7 (inr (respond []))) ready
                (respond []) eq_refl eq_refl) as (_ & _ & Hfallback & _).
    exact (Hfallback eq_refl).
  - destruct (no_image_error_message
                (env_answering 7 (inr (Response.mk None))) ready
                (Response.mk None) eq_refl eq_refl) as (_ & _ & Hfallback & _).
    exact (Hfallback eq_refl).
Defined.

(** Outside of it: a first candidate without content, or with a content
    without parts, makes the unguarded [.content.parts.find] throw, and the
    error shown is the message of that [TypeError], not the fallback. *)
Example first_candidate_without_content :
  let resp := Response.mk (Some [Candidate.mk None]) in
  let s' := handleFuseClick (env_answering 7 (inr resp)) ready in
  find_imagePart resp = inl (TypeError "parts")
  /\ fuse_try (env_answering 7 (inr resp)) ready = inl (TypeError "parts")
  /\ error s' = "Cannot read properties of undefined (reading 'parts')"
  /\ activeResult s' = None.
Proof. repeat split. Qed.

Example first_candidate_without_parts :
  let resp := Response.mk (Some [Candidate.mk (Some (Content.mk None))]) in
  fuse_try (env_answering 7 (inr resp)) ready = inl (TypeError "find").
Proof. reflexivity. Qed.

(** Whatever the chain throws is what the attempt throws. *)
Lemma interpret_chain_throws (now : N) (resp : Response.t) (e : Thrown.t) :
  first_candidate_parts resp = inl e -> interpret now resp = inl e.
Proof.
  intros He. unfold interpret, find_imagePart. by rewrite He.
Qed.

(** C9: when the answer holds a text part carrying the empty string and no
    part carries any other text, a successful fusion gets the caption
    ["Here is your fused image!"] and an answer without image the error
    ["The AI could not generate an image from your request."]: the empty
    text counts as no text. *)
Theorem empty_text_as_absent (env : Env.t) (s : AppState) (resp : Response.t)
    (parts : list Part.t) :
  fuse_response env s = inr resp ->
  first_candidate_parts resp = inr (Some parts) ->
  Exists (fun p => Part.text p = Some "") parts ->
  Forall (fun p => Part.text p = None \/ Part.text p = Some "") parts ->
  let s' := handleFuseClick env s in
  ((exists ip, find_imagePart resp = inr (Some ip)) ->
     Result.text <$> activeResult s' = Some "Here is your fused image!"
     /\ Result.text <$> head (history s') = Some "Here is your fused image!")
  /\ (find_imagePart resp = inr None ->
      error s' = "The AI could not generate an image from your request.").
Proof.
  intros Hresp Hparts _ Hempty s'. subst s'.
  assert (find_textPart resp = inr None) as Hnotext.
  { by apply (find_textPart_None resp parts). }
  unfold handleFuseClick, fuse_try. rewrite Hresp. simpl.
  unfold interpret. split.
  - intros [ip Hip]. rewrite Hip, Hnotext. simpl.
    destruct (find_imagePart_inlineData resp ip Hip) as [blob ->]. done.
  - intros Hnone. rewrite Hnone, Hnotext. done.
Qed.

Lemma empty_text_as_absent_witness :
  Result.text <$> activeResult
    (handleFuseClick
       (env_answering 7 (inr (respond [image_part "image/png" "PPPP"; text_part ""])))
       ready)
  = Some "Here is your fused image!"
  /\ error (handleFuseClick (env_answering 7 (inr (respond [text_part ""]))) ready)
     = "The AI could not generate an image from your request.".
Proof.
  assert (Forall (fun p => Part.text p = None \/ Part.text p = Some "")
                 [image_part "image/png" "PPPP"; text_part ""]) as Hall2.
  { apply Forall_cons; split; [by left|].
    apply Forall_cons; split; [by right | apply Forall_nil_2]. }
  assert (Exists (fun p => Part.text p = Some "")
                 [image_part "image/png" "PPPP"; text_part ""]) as Hex2.
  { apply Exists_cons. right. apply Exists_cons. by left. }
  assert (Forall (fun p => Part.text p = None \/ Part.text p = Some "")
                 [text_part ""]) as Hall1.
  { apply Forall_cons; split; [by right | apply Forall_nil_2]. }
  assert (Exists (fun p => Part.text p = Some "") [text_part ""]) as Hex1.
  { apply Exists_cons. by left. }
  split.
  - destruct (empty_text_as_absent
                (env_answering 7 (inr (respond [image_part "image/png" "PPPP"; text_part ""])))
                ready (respond [image_part "image/png" "PPPP"; text_part ""])
                [image_part "image/png" "PPPP"; text_part ""]
                eq_refl eq_refl Hex2 Hall2) as [Hok _].
    apply Hok. by eexists.
  - destruct (empty_text_as_absent
                (env_answering 7 (inr (respond [text_part ""])))
                ready (respond [text_part ""]) [text_part ""]
                eq_refl eq_refl Hex1 Hall1) as [_ Hfail].
    exact (Hfail eq_refl).
Defined.

(** ** History *)

Section History.
Implicit Types (h : list Result.t) (r : Result.t).

(** What one enabled step does to the history: a successful settlement puts
    its result in front of the first nine entries, anything else leaves the
    history alone. *)
Lemma step_history ev m m' :
  step ev m = Some m' ->
  history (app m')
  = match produced ev m with
    | Some r => r :: take 9 (history (app m))
    | None => history (app m)
    end.
Proof.
  intros Hstep.
  destruct ev as [count|index file|index|value|position| |env];
    simpl in Hstep; simpl.
  - case_bool_decide; by simplify_eq/=.
  - case_bool_decide; simplify_eq. unfold handleFileChange. simpl.
    destruct file as [f|]; [|done]. by destruct (startsWith _ _).
  - destruct (bool_decide (index < imageCount (app m))
              && bool_decide (is_Some (slot_at (images (app m)) index)));
      by simplify_eq/=.
  - by simplify_eq/=.
  - destruct (history (app m) !! position); by simplify_eq/=.
  - destruct (isFuseDisabled (app m)); by simplify_eq/=.
  - destruct (pending m) as [snap|]; simplify_eq/=.
    by destruct (fuse_try env snap).
Qed.

Lemma take_app_cons_take {A} (n k : nat) (l1 l2 : list A) (x : A) :
  n <= length l1 + S k ->
  take n (l1 ++ x :: take k l2) = take n (l1 ++ x :: l2).
Proof.
  revert n. induction l1 as [|y l1 IH]; intros n Hn; simpl in *.
  - destruct n as [|n]; [done|]. simpl. f_equal.
    rewrite take_take. by rewrite Nat.min_l by lia.
  - destruct n as [|n]; [done|]. simpl. f_equal. apply IH. lia.
Qed.

(** After a run, the history holds the ten most recent of: the results of
    the run, newest first, followed by what was there before. *)
Lemma run_history evs m m' :
  run evs m = Some m' ->
  history (app m')
  = take 10 (reverse (results_of evs m) ++ history (app m))
  \/ (results_of evs m = [] /\ history (app m') = history (app m)).
Proof.
  revert m. induction evs as [|ev evs IH]; intros m Hrun; simpl in *.
  - right. by simplify_eq.
  - destruct (step ev m) as [m1|] eqn:Hstep; [|done]. simpl in Hrun.
    pose proof (step_history ev m m1 Hstep) as H1.
    destruct (IH m1 Hrun) as [Hr | [Hnil Hr]].
    + left. rewrite Hr, H1. destruct (produced ev m) as [r|]; simpl.
      * rewrite reverse_cons, <- app_assoc. simpl.
        apply take_app_cons_take. lia.
      * done.
    + rewrite Hnil, Hr, H1. destruct (produced ev m) as [r|]; simpl.
      * by left.
      * by right.
Qed.

Lemma take_reverse_drop_oldest r (rest : list Result.t) h :
  length rest = 10 ->
  take 10 (reverse (r :: rest) ++ h) = reverse rest.
Proof.
  intros Hlen. rewrite reverse_cons, <- app_assoc.
  rewrite take_app_le by (rewrite length_reverse; lia).
  apply take_ge. rewrite length_reverse. lia.
Qed.
End History.

Lemma run_reachable evs m m' :
  reachable m -> run evs m = Some m' -> reachable m'.
Proof.
  revert m. induction evs as [|ev evs IH]; intros m Hm Hrun; simpl in Hrun.
  - by simplify_eq.
  - destruct (step ev m) as [m1|] eqn:Hstep; [|done].
    apply (IH m1); [|done]. by eapply reachable_step.
Qed.

(** C2: in every reachable state the history has at most 10 entries; an
    enabled step either ends a fusion successfully, and then puts the new
    result in front of the first nine entries, or leaves the history exactly
    as it was; on a full history that insertion drops the last entry and
    nothing else; and a run that produces eleven results [r1], [r2 .. r11]
    (oldest first) ends with the history [r11 .. r2], in which [r1] does not
    occur unless it is one of the later ten. *)
Theorem history_bounded_front_insertion :
  (forall m, reachable m -> length (history (app m)) <= 10)
  /\ (forall ev m m', step ev m = Some m' ->
        history (app m')
        = match produced ev m with
          | Some r => r :: take 9 (history (app m))
          | None => history (app m)
          end)
  /\ (forall ev m m' r, step ev m = Some m' -> produced ev m = Some r ->
        length (history (app m)) = 10 ->
        exists kept oldest,
          history (app m) = (kept ++ [oldest])%list /\ history (app m') = r :: kept)
  /\ (forall evs m m' r1 later,
        run evs m = Some m' -> results_of evs m = r1 :: later ->
        length later = 10 ->
        history (app m') = reverse later
        /\ (r1 ∉ later -> r1 ∉ history (app m'))).
Proof.
  split; [|split; [|split]].
  - intros m Hreach. induction Hreach as [|ev m m' _ IH Hstep]; [simpl; lia|].
    rewrite (step_history ev m m' Hstep).
    destruct (produced ev m); [|done]. simpl. rewrite length_take. lia.
  - apply step_history.
  - intros ev m m' r Hstep Hprod Hlen.
    pose proof (step_history ev m m' Hstep) as Hh. rewrite Hprod in Hh.
    destruct (history (app m)) as [|x h] using rev_ind; [done|].
    rewrite length_app in Hlen. simpl in Hlen.
    exists h, x. split; [done|]. rewrite Hh. f_equal.
    rewrite take_app_le by lia. apply take_ge. lia.
  - intros evs m m' r1 later Hrun Hres Hlen.
    assert (history (app m') = reverse later) as Hh.
    { destruct (run_history evs m m' Hrun) as [Hr | [Hnil _]].
      - rewrite Hr, Hres. by apply take_reverse_drop_oldest.
      - by rewrite Hres in Hnil. }
    split; [done|]. rewrite Hh. intros Hnotin.
    rewrite elem_of_reverse. exact Hnotin.
Qed.

Lemma history_bounded_front_insertion_witness :
  exists m',
    run eleven_fusions boot = Some m'
    /\ length (history (app m')) <= 10
    /\ history (app m')
       = map result_at [11; 10; 9; 8; 7; 6; 5; 4; 3; 2]%N
    /\ result_at 1 ∉ history (app m').
Proof.
  destruct history_bounded_front_insertion as (Hbound & _ & _ & Hrun).
  destruct (run eleven_fusions boot) as [m'|] eqn:Hm'; [|by vm_compute in Hm'].
  exists m'. split; [done|].
  assert (results_of eleven_fusions boot
          = result_at 1 :: map result_at [2; 3; 4; 5; 6; 7; 8; 9; 10; 11]%N)
    as Hres by (vm_compute; reflexivity).
  destruct (Hrun eleven_fusions boot m' (result_at 1)
              (map result_at [2; 3; 4; 5; 6; 7; 8; 9; 10; 11]%N) Hm' Hres eq_refl)
    as [Hhist Habsent].
  split; [|split].
  - apply Hbound. by apply (run_reachable eleven_fusions boot), Hm'; constructor.
  - rewrite Hhist. reflexivity.
  - apply Habsent. simpl. intros Hin.
    repeat (apply elem_of_cons in Hin as [Hin|Hin]; [discriminate Hin|]).
    by apply elem_of_nil in Hin.
Defined.

(** * Further properties of the page *)

(** ** Strings: splitting and trimming *)

Section Strings.
Implicit Types (s pre rest : string) (c sep : Ascii.ascii).

Lemma append_nil_l s : "" +:+ s = s.
Proof. reflexivity. Qed.

Lemma append_cons c s1 s2 : String c s1 +:+ s2 = String c (s1 +:+ s2).
Proof. reflexivity. Qed.

Lemma append_assoc' s1 s2 s3 : (s1 +:+ s2) +:+ s3 = s1 +:+ (s2 +:+ s3).
Proof.
  induction s1 as [|c s1 IH]; [done|]. by rewrite !append_cons, IH.
Qed.

Lemma occurs_append c s1 s2 :
  occurs c (s1 +:+ s2) = occurs c s1 || occurs c s2.
Proof.
  induction s1 as [|d s1 IH]; [done|].
  rewrite append_cons. simpl. rewrite IH. by rewrite orb_assoc.
Qed.

Lemma split_nonempty sep s : split sep s ≠ [].
Proof.
  induction s as [|c r IH]; simpl; [done|].
  destruct (Ascii.eqb c sep); [done|]. by destruct (split sep r).
Qed.

Lemma split_absent sep s : occurs sep s = false -> split sep s = [s].
Proof.
  induction s as [|c r IH]; simpl; [done|].
  intros [Hc Hr]%orb_false_iff. rewrite Hc, (IH Hr). done.
Qed.

Lemma split_first sep pre rest :
  occurs sep pre = false ->
  split sep (pre +:+ String sep rest) = pre :: split sep rest.
Proof.
  induction pre as [|c r IH].
  - intros _. rewrite append_nil_l. simpl. by rewrite Ascii.eqb_refl.
  - rewrite append_cons. simpl.
    intros [Hc Hr]%orb_false_iff. rewrite Hc, (IH Hr). done.
Qed.

Lemma trimStart_blank s : blank s = true -> trimStart s = "".
Proof.
  induction s as [|c r IH]; simpl; [done|].
  intros [Hc Hr]%andb_true_iff. rewrite Hc. by apply IH.
Qed.

Lemma trimStart_not_blank s :
  blank s = false ->
  exists c r, trimStart s = String c r /\ is_js_whitespace c = false.
Proof.
  induction s as [|c r IH]; simpl; [done|].
  destruct (is_js_whitespace c) eqn:Hc; simpl.
  - apply IH.
  - intros _. by exists c, r.
Qed.

Lemma trimEnd_keeps_head c r :
  is_js_whitespace c = false -> truthy (trimEnd (String c r)) = true.
Proof. intros Hc. simpl. rewrite Hc. by destruct (trimEnd r). Qed.

(** The trimmed string is empty exactly for a blank string. *)
Lemma truthy_trim s : truthy (trim s) = negb (blank s).
Proof.
  unfold trim. destruct (blank s) eqn:Hb; simpl.
  - by rewrite trimStart_blank.
  - destruct (trimStart_not_blank s Hb) as (c & r & -> & Hc).
    by apply trimEnd_keeps_head.
Qed.
End Strings.

(** ** [fileToBase64] *)

(** X1: [fileToBase64] resolves to the text between the first comma of the
    reader's result and the end when that text holds no further comma, with
    the file's own type as mime type; for a result without any comma it
    still resolves, with the data missing; and it rejects, with a value
    that has no message, exactly when the reader fails. *)
Theorem fileToBase64_cases (env : Env.t) (file : File.t) :
  (forall pre payload,
      Env.readAsDataURL env file = Some (pre +:+ "," +:+ payload) ->
      occurs "," pre = false -> occurs "," payload = false ->
      fileToBase64 env file = inr (Encoded.mk (Some payload) (File.type file)))
  /\ (forall result,
        Env.readAsDataURL env file = Some result ->
        occurs "," result = false ->
        fileToBase64 env file = inr (Encoded.mk None (File.type file)))
  /\ (Env.readAsDataURL env file = None
      <-> fileToBase64 env file = inl (Thrown.mk None))
  /\ (forall e, fileToBase64 env file = inl e -> Thrown.message e = None).
Proof.
  unfold fileToBase64. split; [|split; [|split]].
  - intros pre payload -> Hpre Hpay.
    change (pre +:+ "," +:+ payload) with (pre +:+ String "," payload).
    by rewrite (split_first _ _ _ Hpre), (split_absent _ _ Hpay).
  - intros result -> Hres. by rewrite (split_absent _ _ Hres).
  - by destruct (Env.readAsDataURL env file).
  - intros e. destruct (Env.readAsDataURL env file); [done|].
    by intros [= <-].
Qed.

Lemma fileToBase64_cases_witness :
  fileToBase64 env_fusing cat_png = inr (Encoded.mk (Some "AAAA") "image/png")
  /\ fileToBase64 (Env.mk (fun _ => Some "no separator") (fun _ => inr (respond [])) 7)
       cat_png
     = inr (Encoded.mk None "image/png").
Proof.
  split.
  - destruct (fileToBase64_cases env_fusing cat_png) as (Hurl & _).
    exact (Hurl "data:image/png;base64" "AAAA" eq_refl eq_refl eq_refl).
  - destruct (fileToBase64_cases
                (Env.mk (fun _ => Some "no separator") (fun _ => inr (respond [])) 7)
                cat_png) as (_ & Hnone & _).
    exact (Hnone "no separator" eq_refl eq_refl).
Defined.

(** X2: a fused image can be fed back. When the answer's image part has a
    mime type and a payload free of commas, a file whose reader returns the
    image of the produced result encodes to exactly that payload. *)
Theorem fused_image_reencodes (env : Env.t) (file : File.t) (now : N)
    (resp : Response.t) (ip : Part.t) (M P : string) (r : Result.t) :
  find_imagePart resp = inr (Some ip) ->
  Part.inlineData ip = Some (Blob.mk M P) ->
  interpret now resp = inr r ->
  occurs "," M = false -> occurs "," P = false ->
  Env.readAsDataURL env file = Some (Result.image r) ->
  fileToBase64 env file = inr (Encoded.mk (Some P) (File.type file)).
Proof.
  intros Hip Hdata Hint HM HP Hread.
  unfold interpret in Hint. rewrite Hip in Hint. simpl in Hint.
  destruct (find_textPart resp) as [e|textPart]; [done|]. simpl in Hint.
  rewrite Hdata in Hint. simpl in Hint. injection Hint as <-.
  simpl in Hread. unfold fileToBase64. rewrite Hread.
  change ("data:" +:+ M +:+ ";base64," +:+ P)
    with ("data:" +:+ (M +:+ (";base64" +:+ String "," P))).
  rewrite <- !append_assoc'.
  rewrite split_first.
  - by rewrite (split_absent _ _ HP).
  - rewrite !occurs_append, HM. done.
Qed.

Lemma fused_image_reencodes_witness :
  fileToBase64
    (Env.mk (fun _ => Some "data:image/png;base64,PPPP") (fun _ => inr (respond [])) 7)
    cat_png
  = inr (Encoded.mk (Some "PPPP") "image/png").
Proof.
  exact (fused_image_reencodes
           (Env.mk (fun _ => Some "data:image/png;base64,PPPP")
                   (fun _ => inr (respond [])) 7)
           cat_png 1700000000000
           (respond [image_part "image/png" "PPPP"; text_part "Fused!"])
           (image_part "image/png" "PPPP") "image/png" "PPPP"
           (Result.mk "1700000000000" "data:image/png;base64,PPPP" "Fused!")
           eq_refl eq_refl eq_refl eq_refl eq_refl eq_refl).
Defined.

(** ** The prompt and the fuse button *)

(** X3: a prompt made of white space only keeps the fuse button disabled
    whatever the slots hold; with any other prompt the button depends on the
    slots and on [loading] alone; and none of the four example prompts is
    blank. *)
Theorem blank_prompt_disables (s : AppState) :
  (blank (prompt s) = true -> isFuseDisabled s = true)
  /\ (blank (prompt s) = false ->
      (isFuseDisabled s = false
       <-> (forall i, i < imageCount s -> is_Some (slot_at (images s) i))
           /\ loading s = false))
  /\ Forall (fun ex => blank ex = false) examples.
Proof.
  unfold isFuseDisabled. rewrite truthy_trim, negb_involutive.
  split; [|split].
  - intros ->. by rewrite orb_true_r.
  - intros ->. rewrite orb_false_r, orb_false_iff, negb_false_iff, Nat.eqb_eq.
    rewrite populated_slice_full. tauto.
  - unfold examples. repeat (apply Forall_cons; split; [reflexivity|]).
    apply Forall_nil_2.
Qed.

Lemma blank_prompt_disables_witness :
  isFuseDisabled (set_prompt "   " ready) = true
  /\ isFuseDisabled (set_prompt "Merge all images into a surreal landscape" ready)
     = false.
Proof.
  split.
  - destruct (blank_prompt_disables (set_prompt "   " ready)) as (Hblank & _).
    exact (Hblank eq_refl).
  - destruct (blank_prompt_disables
                (set_prompt "Merge all images into a surreal landscape" ready))
      as (_ & Hfull & _).
    apply (Hfull eq_refl). split; [|reflexivity].
    intros i Hi. destruct i as [|[|i]]; [by eexists | by eexists | simpl in Hi; lia].
Defined.

(** ** Encoding the slots and sending the request *)

Section Encoding.
Context (env : Env.t).
Implicit Types (fs : list File.t) (a : list (option File.t)).

(** A rejection of [Promise.all] over the encodings carries no message. *)
Lemma Promise_all_rejects fs e :
  Promise_all (map (fileToBase64 env) fs) = inl e -> e = Thrown.mk None.
Proof.
  induction fs as [|f fs IH]; simpl; [done|].
  unfold fileToBase64 at 1.
  destruct (Env.readAsDataURL env f); simpl; [|by intros [= <-]].
  destruct (Promise_all (map (fileToBase64 env) fs)); simpl; [|done].
  intros [= <-]. by apply IH.
Qed.

(** With one unreadable file among them, it rejects. *)
Lemma Promise_all_unreadable fs f :
  f ∈ fs -> Env.readAsDataURL env f = None ->
  Promise_all (map (fileToBase64 env) fs) = inl (Thrown.mk None).
Proof.
  intros Hin Hread. induction Hin as [f fs|f g fs _ IH]; simpl.
  - unfold fileToBase64 at 1. by rewrite Hread.
  - destruct (fileToBase64 env g) as [e|enc] eqn:Hg; simpl.
    + by rewrite (Promise_all_rejects [g] e) by (simpl; by rewrite Hg).
    + by rewrite IH.
Qed.

(** With every file readable, it resolves to the encodings in order. *)
Lemma Promise_all_readable fs :
  Forall (fun f => is_Some (Env.readAsDataURL env f)) fs ->
  exists encs,
    Promise_all (map (fileToBase64 env) fs) = inr encs
    /\ length encs = length fs
    /\ forall i f, fs !! i = Some f ->
                   exists enc, fileToBase64 env f = inr enc /\ encs !! i = Some enc.
Proof.
  induction 1 as [|f fs [result Hf] _ (encs & Hall & Hlen & Hnth)]; simpl.
  - exists []. split; [done|]. split; [done|]. intros i f Hi. done.
  - rewrite Hall. unfold fileToBase64 at 1. rewrite Hf. simpl.
    eexists (_ :: encs). split; [done|]. split; [simpl; by rewrite Hlen|].
    intros [|i] g Hg; simpl in *.
    + injection Hg as <-. eexists. split; [|done].
      unfold fileToBase64. by rewrite Hf.
    + by apply Hnth.
Qed.

(** When the first [n] slots all hold a file, the populated slice lists
    them in slot order. *)
Lemma populated_slice_lookup a n i :
  (forall j, j < n -> is_Some (slot_at a j)) ->
  i < n -> populated (slice0 a n) !! i = slot_at a i.
Proof.
  unfold slice0. revert a i. induction n as [|n IH]; intros a i Hall Hi; [lia|].
  destruct a as [|[f|] a].
  - destruct (Hall 0) as [x Hx]; [lia|]. done.
  - change (populated (take (S n) (Some f :: a)))
      with (f :: populated (take n a)).
    destruct i as [|i]; [done|]. simpl. rewrite slot_at_cons_S.
    apply IH; [|lia]. intros j Hj. specialize (Hall (S j)).
    rewrite slot_at_cons_S in Hall. apply Hall. lia.
  - destruct (Hall 0) as [x Hx]; [lia|]. done.
Qed.
End Encoding.

Lemma slot_in_populated_slice (a : list (option File.t)) (n i : nat) (f : File.t) :
  i < n -> slot_at a i = Some f -> f ∈ populated (slice0 a n).
Proof.
  unfold slice0. revert a i. induction n as [|n IH]; intros a i Hi Hslot; [lia|].
  destruct a as [|[g|] a]; [by rewrite slot_at_nil in Hslot| |].
  - change (populated (take (S n) (Some g :: a)))
      with (g :: populated (take n a)).
    destruct i as [|i].
    + injection Hslot as ->. apply list_elem_of_here.
    + apply list_elem_of_further, (IH a i); [lia|done].
  - change (populated (take (S n) (None :: a)))
      with (populated (take n a)).
    destruct i as [|i]; [done|]. apply (IH a i); [lia|done].
Qed.

Lemma populated_slice_elem (a : list (option File.t)) (n : nat) (f : File.t) :
  f ∈ populated (slice0 a n) -> exists i, i < n /\ slot_at a i = Some f.
Proof.
  unfold slice0. revert a. induction n as [|n IH]; intros a Hin.
  - rewrite take_0 in Hin. by apply elem_of_nil in Hin.
  - destruct a as [|[g|] a]; [by apply elem_of_nil in Hin| |].
    + change (populated (take (S n) (Some g :: a)))
        with (g :: populated (take n a)) in Hin.
      apply elem_of_cons in Hin as [->|Hin].
      * exists 0. split; [lia|done].
      * destruct (IH a Hin) as (i & Hi & Hslot). exists (S i). split; [lia|done].
    + change (populated (take (S n) (None :: a)))
        with (populated (take n a)) in Hin.
      destruct (IH a Hin) as (i & Hi & Hslot). exists (S i). split; [lia|done].
Qed.

(** X4: when one of the files in the slots below [imageCount] cannot be
    read, the attempt fails with a value that has no message, the error
    shown is the generic one, and neither the remote call nor the clock has
    any say in the state the attempt ends in. *)
Theorem unreadable_file_generic_error (env : Env.t) (s : AppState)
    (i : nat) (f : File.t) :
  i < imageCount s -> slot_at (images s) i = Some f ->
  Env.readAsDataURL env f = None ->
  fuse_try env s = inl (Thrown.mk None)
  /\ error (handleFuseClick env s) = "An error occurred while fusing the images."
  /\ forall remote clock,
       handleFuseClick (Env.mk (Env.readAsDataURL env) remote clock) s
       = handleFuseClick env s.
Proof.
  intros Hi Hslot Hread.
  pose proof (slot_in_populated_slice _ _ _ _ Hi Hslot) as Hin.
  assert (forall env', Env.readAsDataURL env' = Env.readAsDataURL env ->
                       fuse_try env' s = inl (Thrown.mk None)) as Hfail.
  { intros env' Heq. unfold fuse_try, fuse_response.
    rewrite (Promise_all_unreadable env' _ f Hin) by (by rewrite Heq). done. }
  split; [by apply Hfail|]. split.
  - unfold handleFuseClick. by rewrite Hfail.
  - intros remote clock. unfold handleFuseClick.
    by rewrite !Hfail.
Qed.

Lemma unreadable_file_generic_error_witness :
  error (handleFuseClick
           (Env.mk (fun f => if String.eqb (File.name f) "hat.jpg" then None
                             else Some "data:image/png;base64,AAAA")
                   (fun _ => inr (respond [image_part "image/png" "PPPP"])) 7)
           ready)
  = "An error occurred while fusing the images.".
Proof.
  destruct (unreadable_file_generic_error
              (Env.mk (fun f => if String.eqb (File.name f) "hat.jpg" then None
                                else Some "data:image/png;base64,AAAA")
                      (fun _ => inr (respond [image_part "image/png" "PPPP"])) 7)
              ready 1 hat_jpg) as (_ & Herr & _).
  - simpl. lia.
  - reflexivity.
  - reflexivity.
  - exact Herr.
Defined.

(** X5: behind the gate of the fuse button the mismatch cannot happen: when
    the button is enabled and the files can be read, the remote call is made
    with one inline-data part per slot below [imageCount], in slot order,
    each the encoding of that slot's file, followed by one text part holding
    the prompt as typed (not trimmed). *)
Theorem gated_request_shape (env : Env.t) (s : AppState) :
  isFuseDisabled s = false ->
  (forall i f, i < imageCount s -> slot_at (images s) i = Some f ->
               is_Some (Env.readAsDataURL env f)) ->
  exists encs,
    fuse_response env s = Env.generateContent env (make_request encs (prompt s))
    /\ length encs = imageCount s
    /\ (forall i, i < imageCount s ->
          exists f enc, slot_at (images s) i = Some f
                        /\ fileToBase64 env f = inr enc
                        /\ encs !! i = Some enc)
    /\ Request.parts (make_request encs (prompt s))
       = (map InlineDataPart encs ++ [TextPart (prompt s)])%list.
Proof.
  intros Hgate Hread. unfold isFuseDisabled in Hgate.
  apply orb_false_iff in Hgate as [_ Hlen].
  apply negb_false_iff, Nat.eqb_eq in Hlen.
  pose proof (proj1 (populated_slice_full _ _) Hlen) as Hfull.
  destruct (Promise_all_readable env
              (populated (slice0 (images s) (imageCount s))))
    as (encs & Hall & Hlen' & Hnth).
  { apply Forall_forall. intros f Hf.
    destruct (populated_slice_elem _ _ _ Hf) as (i & Hi & Hslot). eauto. }
  exists encs. unfold fuse_response. rewrite Hall. simpl.
  rewrite Hlen', Hlen, Nat.eqb_refl. simpl.
  split; [done|]. split; [done|]. split; [|done].
  intros i Hi. destruct (Hfull i Hi) as [f Hf].
  destruct (Hnth i f) as (enc & Henc & Hi').
  { by rewrite populated_slice_lookup. }
  by exists f, enc.
Qed.

Lemma gated_request_shape_witness :
  exists encs,
    fuse_response env_fusing ready
    = Env.generateContent env_fusing (make_request encs "merge these")
    /\ length encs = 2.
Proof.
  destruct (gated_request_shape env_fusing ready) as (encs & Hresp & Hlen & _).
  - reflexivity.
  - intros i f _ _. by eexists.
  - exists encs. split; [exact Hresp | exact Hlen].
Defined.

(** X6: run on a state with an empty slot below [imageCount] (the gate
    having been passed by), and the files readable, the attempt throws the
    mismatch error before any remote call, and that message is the error
    shown. *)
Theorem empty_slot_mismatch (env : Env.t) (s : AppState) (i : nat) :
  i < imageCount s -> slot_at (images s) i = None ->
  (forall j f, j < imageCount s -> slot_at (images s) j = Some f ->
               is_Some (Env.readAsDataURL env f)) ->
  fuse_try env s = inl (Error "Mismatch in image processing. Please try again.")
  /\ error (handleFuseClick env s)
     = "Mismatch in image processing. Please try again."
  /\ forall remote clock,
       handleFuseClick (Env.mk (Env.readAsDataURL env) remote clock) s
       = handleFuseClick env s.
Proof.
  intros Hi Hslot Hread.
  assert (length (populated (slice0 (images s) (imageCount s))) ≠ imageCount s)
    as Hne.
  { intros Hlen. destruct (proj1 (populated_slice_full _ _) Hlen i Hi) as [f Hf].
    congruence. }
  assert (forall env', Env.readAsDataURL env' = Env.readAsDataURL env ->
            fuse_try env' s
            = inl (Error "Mismatch in image processing. Please try again."))
    as Hfail.
  { intros env' Heq.
    destruct (Promise_all_readable env'
                (populated (slice0 (images s) (imageCount s))))
      as (encs & Hall & Hlen' & _).
    { apply Forall_forall. intros f Hf.
      destruct (populated_slice_elem _ _ _ Hf) as (j & Hj & Hslotj).
      rewrite Heq. eauto. }
    unfold fuse_try, fuse_response. rewrite Hall. simpl.
    rewrite Hlen'. apply Nat.eqb_neq in Hne. by rewrite Hne. }
  split; [by apply Hfail|]. split.
  - unfold handleFuseClick. by rewrite Hfail.
  - intros remote clock. unfold handleFuseClick. by rewrite !Hfail.
Qed.

Lemma empty_slot_mismatch_witness :
  error (handleFuseClick env_fusing (handleRemoveImage 1 ready))
  = "Mismatch in image processing. Please try again.".
Proof.
  destruct (empty_slot_mismatch env_fusing (handleRemoveImage 1 ready) 1)
    as (_ & Herr & _).
  - simpl. lia.
  - reflexivity.
  - intros j f _ _. by eexists.
  - exact Herr.
Defined.

(** ** What every reachable state satisfies *)

Section Invariants.
Implicit Types (a : list (option File.t)) (s snap : AppState) (m : Machine).

Lemma length_array_set_lt a i v :
  i < length a -> length (array_set a i v) = length a.
Proof.
  intros Hi. unfold array_set. rewrite decide_True by done.
  apply length_insert.
Qed.

Lemma length_foldl_clear (idxs : list nat) a :
  Forall (fun i => i < length a) idxs ->
  length (foldl (fun acc i => array_set acc i None) a idxs) = length a.
Proof.
  revert a. induction idxs as [|i idxs IH]; intros a Hall; cbn [foldl]; [done|].
  apply Forall_cons in Hall as [Hi Hall].
  rewrite IH; rewrite length_array_set_lt by done; done.
Qed.

Lemma length_clear_from n a : length (clear_from n a) = length a.
Proof.
  unfold clear_from. apply length_foldl_clear, Forall_forall.
  intros i Hi. apply elem_of_seq in Hi. lia.
Qed.

Lemma slot_at_clear_from_Some n a i f :
  slot_at (clear_from n a) i = Some f -> i < n /\ slot_at a i = Some f.
Proof.
  intros Hslot. destruct (decide (i < n)) as [Hi|Hi].
  - by rewrite slot_at_clear_from_lt in Hslot.
  - by rewrite slot_at_clear_from_ge in Hslot by lia.
Qed.

Lemma slot_at_array_set_Some a i j v f :
  slot_at (array_set a i v) j = Some f ->
  (j = i /\ v = Some f) \/ (j ≠ i /\ slot_at a j = Some f).
Proof.
  intros Hslot. destruct (decide (j = i)) as [->|Hne].
  - left. by rewrite slot_at_array_set_eq in Hslot.
  - right. by rewrite slot_at_array_set_ne in Hslot.
Qed.

Lemma slots_in_shape_array_set s i v :
  slots_in_shape s -> i < imageCount s ->
  slots_in_shape (set_images (array_set (images s) i v) s).
Proof.
  intros (Hlen & Hcount & Hhidden) Hi. unfold slots_in_shape. simpl.
  split; [rewrite length_array_set_lt; lia|]. split; [done|].
  intros j Hj. rewrite slot_at_array_set_ne by lia. by apply Hhidden.
Qed.

Lemma slots_in_shape_count s n :
  slots_in_shape s -> 2 <= n <= 5 ->
  slots_in_shape (handleImageCountChange n s).
Proof.
  intros (Hlen & _ & _) Hn. unfold slots_in_shape. simpl.
  split; [by rewrite length_clear_from|]. split; [done|].
  intros j Hj. by apply slot_at_clear_from_ge.
Qed.

Lemma only_images_array_set s i v :
  only_images s ->
  (forall f, v = Some f -> startsWith (File.type f) "image/" = true) ->
  only_images (set_images (array_set (images s) i v) s).
Proof.
  intros Hall Hv j f Hslot. simpl in Hslot.
  apply slot_at_array_set_Some in Hslot as [[_ ->]|[_ Hslot]]; [by apply Hv|].
  by apply (Hall j).
Qed.

(** The three handlers that write slots keep the shape and the file types. *)
Lemma handleFileChange_keeps s i file :
  slots_in_shape s -> only_images s -> i < imageCount s ->
  slots_in_shape (handleFileChange i file s)
  /\ only_images (handleFileChange i file s).
Proof.
  intros Hshape Himg Hi. unfold handleFileChange.
  destruct file as [f|]; [|done].
  destruct (startsWith (File.type f) "image/") eqn:Hty; [|done].
  split.
  - by apply (slots_in_shape_array_set s i (Some f)).
  - apply (only_images_array_set s i (Some f)); [done|]. by intros ? [= <-].
Qed.

Lemma handleRemoveImage_keeps s i :
  slots_in_shape s -> only_images s -> i < imageCount s ->
  slots_in_shape (handleRemoveImage i s) /\ only_images (handleRemoveImage i s).
Proof.
  intros Hshape Himg Hi. split.
  - by apply slots_in_shape_array_set.
  - by apply only_images_array_set.
Qed.

Lemma handleImageCountChange_keeps s n :
  slots_in_shape s -> only_images s -> 2 <= n <= 5 ->
  slots_in_shape (handleImageCountChange n s)
  /\ only_images (handleImageCountChange n s).
Proof.
  intros Hshape Himg Hn. split; [by apply slots_in_shape_count|].
  intros j f Hslot. simpl in Hslot.
  apply slot_at_clear_from_Some in Hslot as [_ Hslot]. by apply (Himg j).
Qed.

Lemma page_invariant_boot : page_invariant boot.
Proof.
  split; [|split; [|split]].
  - split; [done|]. split; [simpl; lia|]. intros i _. simpl.
    do 5 (destruct i as [|i]; [done|]). by destruct i.
  - intros i f Hslot. simpl in Hslot.
    do 5 (destruct i as [|i]; [done|]). by destruct i.
  - by intros r.
  - by intros snap.
Qed.

Lemma page_invariant_step ev m m' :
  page_invariant m -> step ev m = Some m' -> page_invariant m'.
Proof.
  intros (Hshape & Himg & Hact & Hpend) Hstep.
  destruct ev as [count|index file|index|value|position| |env];
    simpl in Hstep.
  - case_bool_decide as Hn; simplify_eq.
    pose proof (handleImageCountChange_keeps (app m) count Hshape Himg Hn)
      as [? ?].
    split; [done|]. split; [done|]. split; [exact Hact | exact Hpend].
  - case_bool_decide as Hi; simplify_eq.
    pose proof (handleFileChange_keeps (app m) index file Hshape Himg Hi)
      as [? ?].
    split; [done|]. split; [done|]. split; [|done].
    unfold handleFileChange. destruct file as [f|]; [|done].
    by destruct (startsWith _ _).
  - destruct (bool_decide (index < imageCount (app m))) eqn:Hi;
      [|by simplify_eq/=].
    apply bool_decide_eq_true_1 in Hi.
    destruct (bool_decide (is_Some (slot_at (images (app m)) index)));
      simplify_eq/=.
    pose proof (handleRemoveImage_keeps (app m) index Hshape Himg Hi) as [? ?].
    split; [done|]. split; [done|]. split; [exact Hact | exact Hpend].
  - simplify_eq. split; [exact Hshape|]. split; [exact Himg|].
    split; [exact Hact | exact Hpend].
  - destruct (history (app m) !! position) as [item|] eqn:Hitem; simplify_eq/=.
    split; [done|]. split; [done|]. split; [|done].
    intros r [= <-]. simpl. by eapply list_elem_of_lookup_2.
  - destruct (isFuseDisabled (app m)) eqn:Hgate; simplify_eq.
    split; [done|]. split; [done|]. split; [by intros r|].
    intros snap [= <-]. done.
  - destruct (pending m) as [snap|]; simplify_eq/=.
    split; [|split; [|split; [|done]]].
    + by destruct (fuse_try env snap).
    + by destruct (fuse_try env snap).
    + destruct (fuse_try env snap) as [e|r]; [done|].
      intros r' [= <-]. simpl. apply list_elem_of_here.
Qed.

Lemma reachable_page_invariant m : reachable m -> page_invariant m.
Proof.
  induction 1 as [|ev m m' _ IH Hstep]; [apply page_invariant_boot|].
  by apply (page_invariant_step ev m m').
Qed.
End Invariants.

Lemma reachable_fused : reachable (mkMachine fused None).
Proof. exact (run_reachable _ boot _ reachable_boot fused_is_reachable). Qed.

(** X7: in every reachable state the slot array has exactly five entries,
    the image count is between 2 and 5, and every slot from [imageCount] on
    is empty: nothing is ever stored outside the slots on display, and a
    slot brought back by raising the count shows up empty. *)
Theorem reachable_slots_in_shape (m : Machine) :
  reachable m ->
  length (images (app m)) = 5
  /\ 2 <= imageCount (app m) <= 5
  /\ (forall i, imageCount (app m) <= i -> slot_at (images (app m)) i = None)
  /\ (forall n, imageCount (app m) <= n <= 5 ->
        forall i, imageCount (app m) <= i ->
          slot_at (images (handleImageCountChange n (app m))) i = None).
Proof.
  intros Hreach.
  destruct (reachable_page_invariant m Hreach) as ((Hlen & Hcount & Hhidden) & _).
  split; [done|]. split; [done|]. split; [done|].
  intros n Hn i Hi. simpl. destruct (decide (i < n)) as [Hlt|Hge].
  - rewrite slot_at_clear_from_lt by done. by apply Hhidden.
  - apply slot_at_clear_from_ge. lia.
Qed.

Lemma reachable_slots_in_shape_witness :
  length (images fused) = 5 /\ slot_at (images fused) 3 = None.
Proof.
  destruct (reachable_slots_in_shape (mkMachine fused None) reachable_fused)
    as (Hlen & _ & Hhidden & _).
  split; [exact Hlen|]. apply Hhidden. simpl. lia.
Defined.

(** X8: in every reachable state every file held in a slot has a type that
    starts with ["image/"], and so has every file in the snapshot of a
    pending attempt: no other file is ever encoded and sent. *)
Theorem reachable_only_images (m : Machine) :
  reachable m ->
  (forall i f, slot_at (images (app m)) i = Some f ->
               startsWith (File.type f) "image/" = true)
  /\ (forall snap i f, pending m = Some snap ->
        slot_at (images snap) i = Some f ->
        startsWith (File.type f) "image/" = true).
Proof.
  intros Hreach.
  destruct (reachable_page_invariant m Hreach) as (_ & Himg & _ & Hpend).
  split; [exact Himg|].
  intros snap i f Hsnap Hslot.
  destruct (Hpend snap Hsnap) as (_ & _ & Hsnapimg). by apply (Hsnapimg i).
Qed.

Lemma reachable_only_images_witness :
  startsWith (File.type hat_jpg) "image/" = true.
Proof.
  destruct (reachable_only_images (mkMachine fused None) reachable_fused)
    as [Himg _].
  apply (Himg 1). reflexivity.
Defined.

(** X9: in every reachable state the active result, when there is one, is
    an entry of the history. *)
Theorem reachable_active_in_history (m : Machine) :
  reachable m ->
  forall r, activeResult (app m) = Some r -> r ∈ history (app m).
Proof.
  intros Hreach.
  by destruct (reachable_page_invariant m Hreach) as (_ & _ & Hact & _).
Qed.

Lemma reachable_active_in_history_witness :
  Result.mk "1700000000000" "data:image/png;base64,PPPP" "Fused!"
  ∈ history fused.
Proof.
  apply (reachable_active_in_history (mkMachine fused None) reachable_fused).
  reflexivity.
Defined.

(** X10: one attempt at a time. In every reachable state [loading] is set
    exactly while an attempt is pending; while it is, the fuse button does
    nothing; and the snapshot a pending attempt works on passed the gate of
    the button, with all of its 2 to 5 slots filled. *)
Theorem one_attempt_at_a_time (m : Machine) :
  reachable m ->
  (loading (app m) = true <-> is_Some (pending m))
  /\ (is_Some (pending m) -> step FuseClick m = None)
  /\ (forall snap, pending m = Some snap ->
        isFuseDisabled snap = false
        /\ 2 <= imageCount snap <= 5
        /\ forall i, i < imageCount snap -> is_Some (slot_at (images snap) i)).
Proof.
  intros Hreach. pose proof (reachable_loading_pending m Hreach) as Hload.
  destruct (reachable_page_invariant m Hreach) as (_ & _ & _ & Hpend).
  split; [done|]. split.
  - intros Hp. apply Hload in Hp. simpl. unfold isFuseDisabled. by rewrite Hp.
  - intros snap Hsnap. destruct (Hpend snap Hsnap) as (Hgate & (_ & Hcount & _) & _).
    split; [done|]. split; [done|].
    unfold isFuseDisabled in Hgate. apply orb_false_iff in Hgate as [_ Hlen].
    apply negb_false_iff, Nat.eqb_eq in Hlen. by apply populated_slice_full.
Qed.

Lemma one_attempt_at_a_time_witness :
  step FuseClick (mkMachine (fuse_begin ready) (Some ready)) = None.
Proof.
  assert (reachable (mkMachine (fuse_begin ready) (Some ready))) as Hreach.
  { apply (run_reachable
             [FileChange 0 (Some cat_png); FileChange 1 (Some hat_jpg);
              PromptChange "merge these"; FuseClick] boot);
      [apply reachable_boot | reflexivity]. }
  destruct (one_attempt_at_a_time _ Hreach) as (_ & Hbusy & _).
  apply Hbusy. by eexists.
Defined.

(** X11: a pending attempt works on the page as it was at the click.
    Whatever happens between the click and the settlement (uploads,
    removals, another image count, another prompt, a look at the history),
    the snapshot stays, and with it what the settlement will produce. *)
Theorem pending_snapshot_is_kept (evs : list Event) (m m' : Machine)
    (snap : AppState) :
  reachable m -> pending m = Some snap ->
  Forall (fun ev => not_settlement ev = true) evs ->
  run evs m = Some m' ->
  pending m' = Some snap
  /\ forall env, produced (FuseSettled env) m' = produced (FuseSettled env) m.
Proof.
  intros Hreach Hsnap Hquiet Hrun.
  assert (pending m' = Some snap) as Hkept.
  { revert m Hreach Hsnap Hrun.
    induction Hquiet as [|ev evs Hev _ IH]; intros m Hreach Hsnap Hrun;
      simpl in Hrun; [by simplify_eq|].
    destruct (step ev m) as [m1|] eqn:Hstep; [|done]. simpl in Hrun.
    apply (IH m1); [by eapply reachable_step | | done].
    destruct ev as [count|index file|index|value|position| |env];
      simpl in Hstep; [| | | | | |done].
    - case_bool_decide; by simplify_eq/=.
    - case_bool_decide; by simplify_eq/=.
    - destruct (bool_decide (index < imageCount (app m))
                && bool_decide (is_Some (slot_at (images (app m)) index)));
        by simplify_eq/=.
    - by simplify_eq/=.
    - destruct (history (app m) !! position); by simplify_eq/=.
    - assert (loading (app m) = true) as Hl.
      { apply (reachable_loading_pending m Hreach). by eexists. }
      unfold isFuseDisabled in Hstep. by rewrite Hl in Hstep. }
  split; [done|]. intros env. simpl. by rewrite Hkept, Hsnap.
Qed.

Lemma pending_snapshot_is_kept_witness :
  exists m',
    run [RemoveImage 0; PromptChange "something else"; ImageCountChange 3]
        (mkMachine (fuse_begin ready) (Some ready)) = Some m'
    /\ slot_at (images (app m')) 0 = None
    /\ pending m' = Some ready.
Proof.
  assert (reachable (mkMachine (fuse_begin ready) (Some ready))) as Hreach.
  { apply (run_reachable
             [FileChange 0 (Some cat_png); FileChange 1 (Some hat_jpg);
              PromptChange "merge these"; FuseClick] boot);
      [apply reachable_boot | reflexivity]. }
  eexists. split; [reflexivity|]. split; [reflexivity|].
  refine (proj1 (pending_snapshot_is_kept
                   [RemoveImage 0; PromptChange "something else"; ImageCountChange 3]
                   _ _ ready Hreach eq_refl _ eq_refl)).
  repeat (apply Forall_cons; split; [reflexivity|]). apply Forall_nil_2.
Defined.

(** X12: the history never shrinks and is never rearranged. Along every
    step from a reachable state it either stays as it is, or gains one entry
    in front, its former entries following in their order, the tenth one
    dropped when there were ten. *)
Theorem history_only_grows (ev : Event) (m m' : Machine) :
  reachable m -> step ev m = Some m' ->
  length (history (app m)) <= length (history (app m')) <= 10
  /\ (history (app m') = history (app m)
      \/ exists r, history (app m') = r :: take 9 (history (app m))
                   /\ activeResult (app m') = Some r).
Proof.
  intros Hreach Hstep.
  assert (length (history (app m)) <= 10) as Hbound.
  { clear Hstep. induction Hreach as [|ev0 m0 m1 _ IH Hstep0]; [simpl; lia|].
    rewrite (step_history ev0 m0 m1 Hstep0).
    destruct (produced ev0 m0); [|done]. simpl. rewrite length_take. lia. }
  pose proof (step_history ev m m' Hstep) as Hh.
  destruct (produced ev m) as [r|] eqn:Hprod.
  - rewrite Hh. simpl. rewrite length_take. split; [lia|].
    right. exists r. split; [done|].
    destruct ev; try done. simpl in Hprod, Hstep.
    destruct (pending m) as [snap|]; [|done]. simpl in Hprod, Hstep.
    destruct (fuse_try env snap); by simplify_eq/=.
  - rewrite Hh. split; [lia|]. by left.
Qed.

Lemma history_only_grows_witness :
  length (history fused) <= length (history (handleFuseClick env_refusing fused)) <= 10.
Proof.
  assert (reachable (mkMachine (fuse_begin fused) (Some fused))) as Hreach.
  { apply (reachable_step FuseClick (mkMachine fused None));
      [apply reachable_fused | reflexivity]. }
  destruct (history_only_grows (FuseSettled env_refusing)
              (mkMachine (fuse_begin fused) (Some fused))
              (mkMachine (handleFuseClick env_refusing fused) None)
              Hreach eq_refl) as [Hlen _].
  exact Hlen.
Defined.

Lemma truthy_false_iff (t : string) : t ≠ "" <-> truthy t = true.
Proof. by destruct t. Qed.

(** ** After an attempt *)

(** Things that happen between the click and the settlement show up
    afterwards: a rejected upload during a successful attempt leaves the
    error next to the new result, and a look at the history during a failed
    one leaves that entry on display next to the error. *)
Example rejected_upload_during_success :
  exists m',
    run [FuseClick; FileChange 0 (Some notes_txt); FuseSettled env_fusing]
        (mkMachine ready None) = Some m'
    /\ shown_error (app m') = Some "Please upload only image files."
    /\ is_Some (shown_result (app m')).
Proof. eexists. split; [reflexivity|]. split; [reflexivity | by eexists]. Qed.

Example selection_during_failure :
  exists m',
    run [FuseClick; SelectHistory 0; FuseSettled env_refusing]
        (mkMachine fused None) = Some m'
    /\ shown_error (app m') = Some "unsafe content"
    /\ shown_result (app m') = activeResult fused.
Proof. eexists. split; [reflexivity|]. split; reflexivity. Qed.

(** X13: the settlement of an attempt, whatever happened since the click.
    It leaves the slots, the image count and the prompt as they are at that
    moment and clears [loading], so the fuse button is then ruled by the
    slots and the prompt alone. A success makes the new result the active
    one and leaves the error as it stands; a failure sets a non-empty error
    and leaves the active result and the history as they stand. When
    nothing happened since the click (the state is still the one the click
    left), then moreover a button that was enabled at the click is enabled
    again, the error is empty exactly when the attempt succeeded, which is
    exactly when there is an active result, and the result section shows
    either the error or the result, never both and never the loader. *)
Theorem attempt_outcome (env : Env.t) (m m' : Machine) (snap : AppState) :
  pending m = Some snap ->
  step (FuseSettled env) m = Some m' ->
  let s := app m in
  let s' := app m' in
  (images s' = images s /\ imageCount s' = imageCount s
   /\ prompt s' = prompt s /\ loading s' = false /\ pending m' = None)
  /\ isFuseDisabled s' = isFuseDisabled (set_loading false s)
  /\ (forall r, fuse_try env snap = inr r ->
        activeResult s' = Some r /\ error s' = error s
        /\ history s' = r :: take 9 (history s))
  /\ (forall e, fuse_try env snap = inl e ->
        activeResult s' = activeResult s /\ history s' = history s
        /\ error s' ≠ "")
  /\ shows_loader s' = false
  /\ (s = fuse_begin snap ->
        (isFuseDisabled snap = false -> isFuseDisabled s' = false)
        /\ ((exists r, fuse_try env snap = inr r) <-> error s' = "")
        /\ (error s' = "" <-> is_Some (activeResult s'))
        /\ shows_section s' = true
        /\ (shown_error s' = None <-> is_Some (shown_result s'))).
Proof.
  intros Hsnap Hstep s s'. subst s s'. simpl in Hstep. rewrite Hsnap in Hstep.
  simpl in Hstep. injection Hstep as <-. cbn [app pending].
  split; [by destruct (fuse_try env snap)|].
  split; [by destruct (fuse_try env snap)|].
  split; [by intros r ->|].
  split.
  { intros e ->. split; [done|]. split; [done|].
    apply fuse_settle_error_nonempty. }
  split.
  { unfold shows_loader. by destruct (fuse_try env snap); rewrite andb_false_r. }
  intros ->. split.
  - unfold isFuseDisabled.
    intros [[_ Hp]%orb_false_iff Hl]%orb_false_iff.
    destruct (fuse_try env snap); simpl; by rewrite Hp, Hl.
  - destruct (fuse_try env snap) as [e|r] eqn:Htry.
    + pose proof (fuse_settle_error_nonempty e (fuse_begin snap)) as Hne.
      pose proof Hne as Htruthy. apply truthy_false_iff in Htruthy.
      split; [split; [by intros [? ?] | intros H; by destruct Hne]|].
      split; [split; [intros H; by destruct Hne | by intros [? ?]]|].
      unfold shown_error, shown_result, shows_section.
      simpl in *. rewrite Htruthy. simpl.
      split; [done|]. split; [done | by intros [? ?]].
    + split; [split; [done | by eexists]|].
      split; [split; [by eexists | done]|].
      unfold shown_error, shown_result, shows_section. simpl.
      split; [done|]. split; [by eexists | done].
Qed.

Lemma attempt_outcome_witness :
  isFuseDisabled (handleFuseClick env_refusing ready) = false
  /\ error (handleFuseClick env_refusing ready) ≠ ""
  /\ activeResult (handleFuseClick env_refusing ready) = None.
Proof.
  destruct (attempt_outcome env_refusing
              (mkMachine (fuse_begin ready) (Some ready))
              (mkMachine (handleFuseClick env_refusing ready) None)
              ready eq_refl eq_refl)
    as (_ & _ & _ & Hfail & _ & Hquiet).
  destruct (Hfail (Error "unsafe content") eq_refl) as (Hactive & _ & Herr).
  destruct (Hquiet eq_refl) as (Hretry & _).
  split; [exact (Hretry eq_refl)|]. split; [exact Herr | exact Hactive].
Defined.

(** ** Reading the answer, continued *)

Lemma find_app_l {A} (p : A -> bool) (l1 l2 : list A) (x : A) :
  List.find p l1 = Some x -> List.find p (l1 ++ l2) = Some x.
Proof.
  induction l1 as [|y l1 IH]; simpl; [done|].
  by destruct (p y).
Qed.

(** X14: only the first candidate is read, and of it only the first part
    with inline data and the first part with a non-empty text. Further
    candidates change nothing; a response without candidates throws the
    fallback error; and once the first candidate holds both an image part
    and a non-empty text, parts after them change nothing. *)
Theorem only_first_candidate (now : N) :
  (forall c cs,
      interpret now (Response.mk (Some (c :: cs)))
      = interpret now (Response.mk (Some [c])))
  /\ interpret now (Response.mk None)
     = inl (Error "The AI could not generate an image from your request.")
  /\ interpret now (Response.mk (Some []))
     = inl (Error "The AI could not generate an image from your request.")
  /\ (forall ps more,
        (exists ip, find_imagePart (respond ps) = inr (Some ip)) ->
        (exists tp, find_textPart (respond ps) = inr (Some tp)) ->
        interpret now (respond (ps ++ more)) = interpret now (respond ps)).
Proof.
  split; [done|]. split; [done|]. split; [done|].
  intros ps more [ip Hip] [tp Htp].
  unfold interpret, find_imagePart, find_textPart in *. simpl in *.
  injection Hip as Hip. injection Htp as Htp.
  by rewrite (find_app_l _ ps more ip Hip), (find_app_l _ ps more tp Htp), Hip, Htp.
Qed.

Lemma only_first_candidate_witness :
  interpret 7 (respond ([image_part "image/png" "PPPP"; text_part "Fused!"]
                        ++ [image_part "image/gif" "QQQQ"; text_part "Again"]))
  = inr (Result.mk "7" "data:image/png;base64,PPPP" "Fused!").
Proof.
  destruct (only_first_candidate 7) as (_ & _ & _ & Hmore).
  rewrite Hmore; [reflexivity | by eexists | by eexists].
Defined.

(** ** Slots, continued *)

(** X15: two changes of the image count in a row keep a slot's file exactly
    when its index is below both counts; in particular a file hidden by
    lowering the count does not come back when the count is raised again. *)
Theorem image_count_changes_compose (n k : nat) (s : AppState) (i : nat) :
  let s' := handleImageCountChange k (handleImageCountChange n s) in
  imageCount s' = k
  /\ slot_at (images s') i
     = (if decide (i < n /\ i < k) then slot_at (images s) i else None)
  /\ (n <= i -> slot_at (images s') i = None).
Proof.
  simpl. split; [done|].
  assert (slot_at (clear_from k (clear_from n (images s))) i
          = if decide (i < n /\ i < k) then slot_at (images s) i else None) as H.
  { destruct (decide (i < k)) as [Hk|Hk].
    - rewrite slot_at_clear_from_lt by done.
      destruct (decide (i < n)) as [Hn|Hn].
      + rewrite slot_at_clear_from_lt by done. by rewrite decide_True.
      + rewrite slot_at_clear_from_ge by lia. by rewrite decide_False by lia.
    - rewrite slot_at_clear_from_ge by lia. by rewrite decide_False by lia. }
  split; [done|]. intros Hn. rewrite H. by rewrite decide_False by lia.
Qed.

Lemma image_count_changes_compose_witness :
  slot_at (images four_up) 3 = Some cat_png
  /\ slot_at (images (handleImageCountChange 4 (handleImageCountChange 3 four_up))) 3
     = None.
Proof.
  split; [reflexivity|].
  destruct (image_count_changes_compose 3 4 four_up 3) as (_ & _ & Hgone).
  apply Hgone. lia.
Defined.

(** X16: writes to different slots do not depend on their order: for two
    indices inside the array, removing at one and assigning an image at the
    other commute, as do two assignments of images; and a second assignment
    to the same slot makes the first one invisible. *)
Theorem slot_writes_commute (i j : nat) (f g : File.t) (s : AppState) :
  i < length (images s) -> j < length (images s) ->
  startsWith (File.type f) "image/" = true ->
  startsWith (File.type g) "image/" = true ->
  (i ≠ j ->
     handleRemoveImage j (handleFileChange i (Some f) s)
     = handleFileChange i (Some f) (handleRemoveImage j s)
     /\ handleFileChange j (Some g) (handleFileChange i (Some f) s)
        = handleFileChange i (Some f) (handleFileChange j (Some g) s))
  /\ handleFileChange i (Some g) (handleFileChange i (Some f) s)
     = handleFileChange i (Some g) s.
Proof.
  intros Hi Hj Hf Hg.
  unfold handleFileChange, handleRemoveImage. rewrite Hf, Hg. simpl.
  unfold set_error, set_images. simpl.
  assert (forall (a : list (option File.t)) k v,
            k < length a -> array_set a k v = <[k:=v]> a) as Hset.
  { intros a k v Hk. unfold array_set. by rewrite decide_True. }
  split.
  - intros Hne. split; f_equal.
    + rewrite (Hset (images s) i), (Hset (images s) j) by done.
      rewrite !Hset by (rewrite length_insert; done).
      apply list_insert_insert_ne. lia.
    + rewrite (Hset (images s) i), (Hset (images s) j) by done.
      rewrite !Hset by (rewrite length_insert; done).
      apply list_insert_insert_ne. lia.
  - f_equal. rewrite (Hset (images s) i) by done.
    rewrite !Hset by (rewrite ?length_insert; done).
    apply list_insert_insert_eq.
Qed.

Lemma slot_writes_commute_witness :
  handleRemoveImage 1 (handleFileChange 0 (Some hat_jpg) ready)
  = handleFileChange 0 (Some hat_jpg) (handleRemoveImage 1 ready).
Proof.
  destruct (slot_writes_commute 0 1 hat_jpg cat_png ready) as [Hcomm _].
  - simpl. lia.
  - simpl. lia.
  - reflexivity.
  - reflexivity.
  - destruct Hcomm as [Hrm _]; [lia | exact Hrm].
Defined.

(** The order does matter for the error: a rejected file after an accepted
    one leaves the error standing, the other way round it is wiped. *)
Example file_changes_error_order :
  error (handleFileChange 1 (Some notes_txt) (handleFileChange 0 (Some cat_png) initial))
  = "Please upload only image files."
  /\ error (handleFileChange 0 (Some cat_png) (handleFileChange 1 (Some notes_txt) initial))
     = "".
Proof. split; reflexivity. Qed.

(** X17: emptying a slot on display disables the fuse button, and so does,
    in a reachable state, raising the image count: the slots that come into
    view are empty. *)
Theorem emptied_or_new_slot_disables (m : Machine) :
  (forall i, i < imageCount (app m) ->
     isFuseDisabled (handleRemoveImage i (app m)) = true)
  /\ (reachable m -> forall n, imageCount (app m) < n ->
        isFuseDisabled (handleImageCountChange n (app m)) = true).
Proof.
  assert (forall s i, i < imageCount s -> slot_at (images s) i = None ->
                      isFuseDisabled s = true) as Hempty.
  { intros s i Hi Hslot. unfold isFuseDisabled.
    destruct (Nat.eqb_spec
                (length (populated (slice0 (images s) (imageCount s))))
                (imageCount s)) as [Hlen|Hlen]; [|by rewrite orb_true_r].
    destruct (proj1 (populated_slice_full _ _) Hlen i Hi) as [f Hf]. congruence. }
  split.
  - intros i Hi. apply (Hempty _ i); [done|]. simpl. apply slot_at_array_set_eq.
  - intros Hreach n Hn.
    destruct (reachable_page_invariant m Hreach) as ((_ & _ & Hhidden) & _).
    apply (Hempty _ (imageCount (app m))); [done|]. simpl.
    rewrite slot_at_clear_from_lt by done. by apply Hhidden.
Qed.

Lemma emptied_or_new_slot_disables_witness :
  isFuseDisabled fused = false
  /\ isFuseDisabled (handleRemoveImage 0 fused) = true
  /\ isFuseDisabled (handleImageCountChange 3 fused) = true.
Proof.
  destruct (emptied_or_new_slot_disables (mkMachine fused None)) as [Hrm Hup].
  split; [reflexivity|]. split.
  - apply Hrm. simpl. lia.
  - apply (Hup reachable_fused). simpl. lia.
Defined.

(** ** The uploader's two entrances *)

(** X18: dropping files on an uploader and picking them through its input
    do the same to the page: only the first file counts, it goes through
    [handleFileChange], and an empty or missing file list changes nothing
    (it does not clear the slot); a drop also ends the dragging state. *)
Theorem drop_equals_browse (index : nat) (files : option (list File.t))
    (isDragging : bool) (s : AppState) :
  snd (handleDrop index files isDragging s) = handleInputChange index files s
  /\ fst (handleDrop index files isDragging s) = false
  /\ (forall f more, files = Some (f :: more) ->
        handleInputChange index files s = handleFileChange index (Some f) s)
  /\ (files = None \/ files = Some [] ->
        handleInputChange index files s = s
        /\ slot_at (images (handleInputChange index files s)) index
           = slot_at (images s) index).
Proof.
  unfold handleDrop, handleInputChange. split; [|split; [done|split]].
  - by destruct files as [[|f more]|].
  - by intros f more ->.
  - by intros [-> | ->].
Qed.

Lemma drop_equals_browse_witness :
  handleInputChange 0 (Some [hat_jpg; notes_txt]) ready
  = handleFileChange 0 (Some hat_jpg) ready
  /\ handleInputChange 0 (Some []) ready = ready.
Proof.
  split.
  - destruct (drop_equals_browse 0 (Some [hat_jpg; notes_txt]) true ready)
      as (_ & _ & Hfirst & _).
    exact (Hfirst hat_jpg [notes_txt] eq_refl).
  - destruct (drop_equals_browse 0 (Some []) true ready) as (_ & _ & _ & Hnone).
    destruct Hnone as [Hsame _]; [by right | exact Hsame].
Defined.

(** ** The loading message *)

(** X19: after [k] ticks of its timer the rotator is at index [k mod 4] and
    shows the message at that index, which always exists; four ticks later
    it shows the same message again. *)
Theorem rotator_cycles (k : nat) :
  Nat.iter k rotator_tick rotator_start
  = mkRotator (k mod 4) (messages !! (k mod 4))
  /\ is_Some (loadingMessage (Nat.iter k rotator_tick rotator_start))
  /\ Nat.iter (k + 4) rotator_tick rotator_start
     = Nat.iter k rotator_tick rotator_start.
Proof.
  assert (forall j, Nat.iter j rotator_tick rotator_start
                    = mkRotator (j mod 4) (messages !! (j mod 4))) as Hiter.
  { induction j as [|j IH]; [done|].
    cbn [Nat.iter nat_rect]. change (nat_rect _ _ _ j) with
      (Nat.iter j rotator_tick rotator_start). rewrite IH.
    unfold rotator_tick. cbn [rot_i].
    change (length messages) with 4.
    rewrite Nat.Div0.add_mod_idemp_l. by replace (j + 1) with (S j) by lia. }
  split; [apply Hiter|]. split.
  - rewrite Hiter. cbn [loadingMessage]. apply lookup_lt_is_Some.
    change (length messages) with 4. apply Nat.mod_upper_bound. lia.
  - rewrite !Hiter. replace (k + 4) with (k + 1 * 4) by lia.
    by rewrite Nat.Div0.mod_add.
Qed.

(** ** What an attempt reads *)

Lemma populated_slice_ext (n : nat) (a a' : list (option File.t)) :
  (forall i, i < n -> slot_at a i = slot_at a' i) ->
  populated (slice0 a n) = populated (slice0 a' n).
Proof.
  unfold slice0. revert a a'. induction n as [|n IH]; intros a a' Hsame.
  - by rewrite !take_0.
  - assert (forall x l, populated (take (S n) (x :: l))
                        = (option_list x ++ populated (take n l))%list) as Hcons.
    { by intros [f|] l. }
    assert (populated (take (S n) [])
            = (option_list None ++ populated (take n []))%list) as Hnil
      by (by rewrite !take_nil).
    pose proof (Hsame 0 ltac:(lia)) as H0.
    assert (forall l l', (forall i, i < S n -> slot_at l i = slot_at l' i) ->
                         forall i, i < n -> slot_at l (S i) = slot_at l' (S i))
      as Htail by (intros l l' H i Hi; apply H; lia).
    destruct a as [|x a], a' as [|x' a'].
    + done.
    + rewrite Hnil, Hcons. rewrite slot_at_nil, slot_at_cons_0 in H0. subst x'.
      f_equal. apply IH. intros i Hi.
      pose proof (Htail _ _ Hsame i Hi) as Hi'.
      by rewrite slot_at_cons_S, !slot_at_nil in *.
    + rewrite Hnil, Hcons. rewrite slot_at_nil, slot_at_cons_0 in H0. subst x.
      f_equal. apply IH. intros i Hi.
      pose proof (Htail _ _ Hsame i Hi) as Hi'.
      by rewrite slot_at_cons_S, !slot_at_nil in *.
    + rewrite !Hcons. rewrite !slot_at_cons_0 in H0. subst x'.
      f_equal. apply IH. intros i Hi.
      pose proof (Htail _ _ Hsame i Hi) as Hi'.
      by rewrite !slot_at_cons_S in Hi'.
Qed.

(** X20: the outcome of an attempt depends on the page only through the
    image count, the slots below it and the prompt: two states that agree
    on these give the same outcome, whatever their other slots, results,
    history, error or loading flag. *)
Theorem attempt_reads_only (env : Env.t) (s s' : AppState) :
  imageCount s = imageCount s' ->
  (forall i, i < imageCount s -> slot_at (images s) i = slot_at (images s') i) ->
  prompt s = prompt s' ->
  fuse_try env s = fuse_try env s'.
Proof.
  intros Hcount Hslots Hprompt. unfold fuse_try, fuse_response.
  rewrite <- Hcount, <- Hprompt.
  by rewrite (populated_slice_ext _ _ _ Hslots).
Qed.

Lemma attempt_reads_only_witness :
  fuse_try env_fusing (handleFileChange 4 (Some cat_png) fused)
  = fuse_try env_fusing ready.
Proof.
  apply attempt_reads_only; [reflexivity | | reflexivity].
  intros i Hi. destruct i as [|[|i]]; [reflexivity | reflexivity | simpl in Hi; lia].
Defined.
